(** * Residual-network construction, metric aggregation and training start-up

    A shallow embedding of [tensorflow_code/model/resnet2.py],
    [tensorflow_code/synthesize_results.py] and the start-up part of
    [tensorflow_code/train.py].

    The TensorFlow functions the source calls build nodes of a computation
    graph.  A tensor handle is therefore a term whose constructors are the
    library calls, each carrying the arguments the source passes.  Python
    floats that are only passed along (weight decay, batch-norm constants)
    are exact rationals.  The numbers of the metric files are read twice: as
    exact rationals, for what does not depend on rounding, and as binary64
    floats, for the values the code stores. *)

From Stdlib Require Import ZArith QArith List Ascii String Bool Lia DecimalString.
From Stdlib Require Import PrimFloat.
Import ListNotations.

Open Scope string_scope.
Open Scope Z_scope.

(** Python exceptions raised by the modelled code. *)
Inductive exn : Type :=
| ValueError (msg : string)
| IndexError
| KeyError (key : string)
| ZeroDivisionError
| AssertionError (msg : string).

(** A computation that returns a value or raises. *)
Definition result (A : Type) : Type := (exn + A)%type.

Definition ret {A : Type} (a : A) : result A := inr a.
Definition raise {A : Type} (e : exn) : result A := inl e.
Definition bind {A B : Type} (c : result A) (k : A -> result B) : result B :=
  match c with
  | inl e => inl e
  | inr a => k a
  end.

Notation "x <- c ;; k" := (bind c (fun x => k))
  (at level 61, c at next level, right associativity).

(** [range(lo, hi)] of Python. *)
Definition range (lo hi : Z) : list Z :=
  map (fun k => lo + Z.of_nat k) (seq 0 (Z.to_nat (hi - lo))).

(** [str(n)] for a non-negative integer. *)
Definition str_of_nat (n : nat) : string :=
  NilEmpty.string_of_uint (Nat.to_uint n).

(* ====================================================================== *)
(** ** The computation graph *)

Module Tf.

Inductive padding : Type := SAME | VALID.

(** A static dimension: [None] is a dimension unknown at construction. *)
Definition dim : Type := option Z.
Definition shape : Type := list dim.

(** The activation functions a layer call can take as [activation_fn]. *)
Inductive activation : Type := tf_nn_relu.

(** [activation_fn] of [tf.contrib.layers.fully_connected] when the caller
    does not pass it: the library's signature has
    [activation_fn=tf.nn.relu]; [None] would be a linear layer. *)
Definition fully_connected_default_activation_fn : option activation :=
  Some tf_nn_relu.

(** A node stands for the whole library call.  The convolution call
    carries the arguments the source passes; the fully-connected call also
    carries its [activation_fn], which decides whether its output is the
    raw projection. *)
Inductive tensor : Type :=
| placeholder (sh : shape)
| pad (inputs : tensor) (paddings : list (Z * Z))
| contrib_layers_conv2d (inputs : tensor) (num_outputs kernel_size stride : Z)
    (padding_ : padding) (weights_regularizer_l2 : Q)
| layers_batch_normalization (inputs : tensor) (momentum epsilon : Q)
    (center scale training fused : bool)
| nn_relu (x : tensor)
| add (x y : tensor)
| identity (x : tensor) (name : string)
| layers_max_pooling2d (inputs : tensor) (pool_size : Z)
    (strides : option Z) (padding_ : padding)
| layers_average_pooling2d (inputs : tensor) (pool_size strides : Z)
    (padding_ : padding)
| contrib_layers_flatten (inputs : tensor)
| contrib_layers_fully_connected (inputs : tensor) (num_outputs : Z)
    (activation_fn : option activation) (weights_regularizer_l2 : Q).

(** The value of [t] is the affine output of a fully-connected layer with
    no activation applied ([tf.identity] only renames). *)
Fixpoint is_raw_logits (t : tensor) : bool :=
  match t with
  | identity x _ => is_raw_logits x
  | contrib_layers_fully_connected _ _ None _ => true
  | _ => false
  end.

(** *** Static shapes, as TensorFlow documents them for these calls *)

Definition ceil_div (a b : Z) : Z := - ((- a) / b).

(** Output length of a window operation along one spatial axis:
    [SAME] gives ceil(n / stride), [VALID] gives ceil((n - k + 1) / stride)
    and needs the window to fit. *)
Definition window_out (p : padding) (k stride : Z) (d : dim) : option dim :=
  match d with
  | None => Some None
  | Some n =>
      match p with
      | SAME => Some (Some (ceil_div n stride))
      | VALID =>
          if n <? k then None else Some (Some (ceil_div (n - k + 1) stride))
      end
  end.

Definition pad_dim (d : dim) (p : Z * Z) : dim :=
  match d with
  | None => None
  | Some n => Some (fst p + n + snd p)
  end.

(** [tf.pad] refuses a negative padding, and paddings that are not one
    pair per axis. *)
Fixpoint pad_shape (sh : shape) (paddings : list (Z * Z)) : option shape :=
  match sh, paddings with
  | [], [] => Some []
  | d :: sh', p :: ps =>
      if (fst p <? 0) || (snd p <? 0) then None
      else
        match pad_shape sh' ps with
        | Some r => Some (pad_dim d p :: r)
        | None => None
        end
  | _, _ => None
  end.

Definition window_shape (p : padding) (k stride : Z) (out_channels : dim -> dim)
    (sh : shape) : option shape :=
  match sh with
  | [b; h; w; c] =>
      match window_out p k stride h, window_out p k stride w with
      | Some h', Some w' => Some [b; h'; w'; out_channels c]
      | _, _ => None
      end
  | _ => None
  end.

Definition dim_eqb (a b : dim) : bool :=
  match a, b with
  | None, None => true
  | Some x, Some y => x =? y
  | _, _ => false
  end.

Fixpoint shape_eqb (s t : shape) : bool :=
  match s, t with
  | [], [] => true
  | a :: s', b :: t' => dim_eqb a b && shape_eqb s' t'
  | _, _ => false
  end.

(** Broadcasting of two dimensions: equal dimensions stay, a dimension of
    1 stretches to the other one, different dimensions above 1 are
    refused; an unknown dimension gives way to a known one above 1. *)
Definition broadcast_dim (a b : dim) : option dim :=
  match a, b with
  | Some x, Some y =>
      if x =? 1 then Some (Some y)
      else if y =? 1 then Some (Some x)
      else if x =? y then Some (Some x)
      else None
  | Some x, None => if 1 <? x then Some (Some x) else Some None
  | None, Some y => if 1 <? y then Some (Some y) else Some None
  | None, None => Some None
  end.

(** Broadcasting of two shapes of one rank, axis by axis. *)
Fixpoint broadcast_axes (s t : shape) : option shape :=
  match s, t with
  | [], [] => Some []
  | a :: s', b :: t' =>
      match broadcast_dim a b, broadcast_axes s' t' with
      | Some d, Some r => Some (d :: r)
      | _, _ => None
      end
  | _, _ => None
  end.

(** Broadcasting of two shapes: the shorter one is first filled with
    leading dimensions of 1. *)
Definition broadcast_shape (s t : shape) : option shape :=
  let n := Nat.max (List.length s) (List.length t) in
  let fill := fun sh : shape =>
    (repeat (Some 1) (n - List.length sh) ++ sh)%list in
  broadcast_axes (fill s) (fill t).

Definition dim_mul (a b : dim) : dim :=
  match a, b with
  | Some x, Some y => Some (x * y)
  | _, _ => None
  end.

(** [x.get_shape()], or [None] where graph construction is refused: a
    negative padding, a window that does not fit, a pooling call without a
    stride, operands of a sum that do not broadcast, an input of the wrong
    rank.  The checks the library makes on filter counts, kernel sizes and
    strides are not part of it. *)
Fixpoint get_shape (t : tensor) : option shape :=
  match t with
  | placeholder sh => Some sh
  | pad x paddings =>
      match get_shape x with
      | Some sh => pad_shape sh paddings
      | None => None
      end
  | contrib_layers_conv2d x f k s p _ =>
      match get_shape x with
      | Some sh => window_shape p k s (fun _ => Some f) sh
      | None => None
      end
  | layers_batch_normalization x _ _ _ _ _ _ => get_shape x
  | nn_relu x => get_shape x
  | add x y =>
      match get_shape x, get_shape y with
      | Some sx, Some sy => broadcast_shape sx sy
      | _, _ => None
      end
  | identity x _ => get_shape x
  | layers_max_pooling2d x k (Some s) p =>
      match get_shape x with
      | Some sh => window_shape p k s (fun c => c) sh
      | None => None
      end
  | layers_max_pooling2d _ _ None _ => None
  | layers_average_pooling2d x k s p =>
      match get_shape x with
      | Some sh => window_shape p k s (fun c => c) sh
      | None => None
      end
  | contrib_layers_flatten x =>
      match get_shape x with
      | Some (b :: rest) => Some [b; fold_left dim_mul rest (Some 1)]
      | _ => None
      end
  | contrib_layers_fully_connected x n _ _ =>
      match get_shape x with
      | Some [b; _] => Some [b; Some n]
      | _ => None
      end
  end.

End Tf.

(* ====================================================================== *)
(** ** resnet2.py *)

Module Resnet2.

Import Tf.

Definition _BATCH_NORM_DECAY : Q := 997 # 1000.
Definition _BATCH_NORM_EPSILON : Q := 1 # 100000.
Definition DEFAULT_VERSION : Z := 2.

Definition batch_norm (inputs : tensor) (training : bool) : tensor :=
  layers_batch_normalization inputs _BATCH_NORM_DECAY _BATCH_NORM_EPSILON
    true true training true.

Definition fixed_padding (inputs : tensor) (kernel_size : Z) : tensor :=
  let pad_total := kernel_size - 1 in
  let pad_beg := pad_total / 2 in
  let pad_end := pad_total - pad_beg in
  let padded_inputs :=
    pad inputs [(0, 0); (pad_beg, pad_end); (pad_beg, pad_end); (0, 0)] in
  padded_inputs.

(** The padding depends on [kernel_size] only, not on the input size.  The
    [print] of the arguments is left out. *)
Definition conv2d_fixed_padding (inputs : tensor)
    (filters kernel_size strides : Z) (weight_decay : Q) : tensor :=
  let inputs :=
    if strides >? 1 then fixed_padding inputs kernel_size else inputs in
  contrib_layers_conv2d inputs filters kernel_size strides
    (if strides =? 1 then SAME else VALID) weight_decay.

(** A projection shortcut: a function of the block input and the weight
    decay.  A block receives [Some] of one, or [None]. *)
Definition projection_t : Type := tensor -> Q -> tensor.

Definition block_fn_t : Type :=
  tensor -> Z -> bool -> option projection_t -> Z -> Q -> tensor.

Definition _building_block_v1 (inputs : tensor) (filters : Z)
    (training : bool) (projection_shortcut : option projection_t)
    (strides : Z) (weight_decay : Q) : tensor :=
  let shortcut := inputs in
  let shortcut :=
    match projection_shortcut with
    | Some projection_shortcut =>
        let shortcut := projection_shortcut inputs weight_decay in
        batch_norm shortcut training
    | None => shortcut
    end in
  let inputs := conv2d_fixed_padding inputs filters 3 strides weight_decay in
  let inputs := batch_norm inputs training in
  let inputs := nn_relu inputs in
  let inputs := conv2d_fixed_padding inputs filters 3 1 weight_decay in
  let inputs := batch_norm inputs training in
  let inputs := add inputs shortcut in
  let inputs := nn_relu inputs in
  inputs.

Definition _building_block_v2 (inputs : tensor) (filters : Z)
    (training : bool) (projection_shortcut : option projection_t)
    (strides : Z) (weight_decay : Q) : tensor :=
  let shortcut := inputs in
  let inputs := batch_norm inputs training in
  let inputs := nn_relu inputs in
  let shortcut :=
    match projection_shortcut with
    | Some projection_shortcut => projection_shortcut inputs weight_decay
    | None => shortcut
    end in
  let inputs := conv2d_fixed_padding inputs filters 3 strides weight_decay in
  let inputs := batch_norm inputs training in
  let inputs := nn_relu inputs in
  let inputs := conv2d_fixed_padding inputs filters 3 1 weight_decay in
  add inputs shortcut.

Definition _bottleneck_block_v1 (inputs : tensor) (filters : Z)
    (training : bool) (projection_shortcut : option projection_t)
    (strides : Z) (weight_decay : Q) : tensor :=
  let shortcut := inputs in
  let shortcut :=
    match projection_shortcut with
    | Some projection_shortcut =>
        let shortcut := projection_shortcut inputs weight_decay in
        batch_norm shortcut training
    | None => shortcut
    end in
  let inputs := conv2d_fixed_padding inputs filters 1 1 weight_decay in
  let inputs := batch_norm inputs training in
  let inputs := nn_relu inputs in
  let inputs := conv2d_fixed_padding inputs filters 3 strides weight_decay in
  let inputs := batch_norm inputs training in
  let inputs := nn_relu inputs in
  let inputs := conv2d_fixed_padding inputs (4 * filters) 1 1 weight_decay in
  let inputs := batch_norm inputs training in
  let inputs := add inputs shortcut in
  let inputs := nn_relu inputs in
  inputs.

Definition _bottleneck_block_v2 (inputs : tensor) (filters : Z)
    (training : bool) (projection_shortcut : option projection_t)
    (strides : Z) (weight_decay : Q) : tensor :=
  let shortcut := inputs in
  let inputs := batch_norm inputs training in
  let inputs := nn_relu inputs in
  let shortcut :=
    match projection_shortcut with
    | Some projection_shortcut => projection_shortcut inputs weight_decay
    | None => shortcut
    end in
  let inputs := conv2d_fixed_padding inputs filters 1 1 weight_decay in
  let inputs := batch_norm inputs training in
  let inputs := nn_relu inputs in
  let inputs := conv2d_fixed_padding inputs filters 3 strides weight_decay in
  let inputs := batch_norm inputs training in
  let inputs := nn_relu inputs in
  let inputs := conv2d_fixed_padding inputs (4 * filters) 1 1 weight_decay in
  add inputs shortcut.

(** The closure [projection_shortcut] that [block_layer] defines, with the
    variables it captures made explicit. *)
Definition projection_shortcut (filters_out strides : Z) : projection_t :=
  fun inputs weight_decay =>
    conv2d_fixed_padding inputs filters_out 1 strides weight_decay.

Definition block_layer (inputs : tensor) (filters : Z) (bottleneck : bool)
    (block_fn : block_fn_t) (blocks strides : Z) (training : bool)
    (name : string) (weight_decay : Q) : tensor :=
  let filters_out := if bottleneck then filters * 4 else filters in
  let inputs :=
    block_fn inputs filters training
      (Some (projection_shortcut filters_out strides)) strides weight_decay in
  let inputs :=
    fold_left
      (fun inputs _ => block_fn inputs filters training None 1 weight_decay)
      (range 1 blocks) inputs in
  identity inputs name.

(** The attributes [Model.__init__] sets on [self]. *)
Record Model : Type := mkModel {
  resnet_version : Z;
  bottleneck : bool;
  block_fn : block_fn_t;
  num_classes : Z;
  num_filters : Z;
  kernel_size : Z;
  conv_stride : Z;
  first_pool_size : option Z;
  first_pool_stride : option Z;
  second_pool_size : Z;
  second_pool_stride : Z;
  block_sizes : list Z;
  block_strides : list Z;
  final_size : Z;
  weight_decay : Q
}.

Definition Model__init__ (bottleneck : bool) (num_classes num_filters : Z)
    (kernel_size conv_stride : Z) (first_pool_size first_pool_stride : option Z)
    (second_pool_size second_pool_stride : Z) (block_sizes block_strides : list Z)
    (final_size : Z) (version : Z) (weight_decay : Q) : result Model :=
  if negb ((version =? 1) || (version =? 2)) then
    raise (ValueError
             "Resnet version should be 1 or 2. See README for citations.")
  else
    let block_fn :=
      if bottleneck then
        if version =? 1 then _bottleneck_block_v1 else _bottleneck_block_v2
      else
        if version =? 1 then _building_block_v1 else _building_block_v2 in
    ret (mkModel version bottleneck block_fn num_classes num_filters
           kernel_size conv_stride first_pool_size first_pool_stride
           second_pool_size second_pool_stride block_sizes block_strides
           final_size weight_decay).

(** Truth value of an optional integer: [None] and [0] are false. *)
Definition truthy (x : option Z) : bool :=
  match x with
  | Some n => negb (n =? 0)
  | None => false
  end.

(** The loop [for i, num_blocks in enumerate(self.block_sizes)], from index
    [i] on.  [self.block_strides[i]] raises when the list is too short. *)
Fixpoint block_layers (self : Model) (training : bool) (i : nat)
    (sizes : list Z) (inputs : tensor) : result tensor :=
  match sizes with
  | [] => ret inputs
  | num_blocks :: rest =>
      let num_filters := num_filters self * 2 ^ Z.of_nat i in
      match nth_error (block_strides self) i with
      | None => raise IndexError
      | Some strides =>
          let inputs :=
            block_layer inputs num_filters (bottleneck self) (block_fn self)
              num_blocks strides training
              ("block_layer" ++ str_of_nat (i + 1)) (weight_decay self) in
          block_layers self training (S i) rest inputs
      end
  end.

(** [first_pool_stride] is read only when [first_pool_size] is set, and is
    passed to the pooling call as it is. *)
Definition Model__call__ (self : Model) (inputs : tensor) (training : bool)
    : result tensor :=
  let inputs :=
    conv2d_fixed_padding inputs (num_filters self) (kernel_size self)
      (conv_stride self) (weight_decay self) in
  let inputs := identity inputs "initial_conv" in
  let inputs :=
    if truthy (first_pool_size self) then
      let size := match first_pool_size self with Some n => n | None => 0 end in
      let inputs :=
        layers_max_pooling2d inputs size (first_pool_stride self) SAME in
      identity inputs "initial_max_pool"
    else inputs in
  inputs <- block_layers self training 0 (block_sizes self) inputs ;;
  let inputs := batch_norm inputs training in
  let inputs := nn_relu inputs in
  let inputs :=
    layers_average_pooling2d inputs (second_pool_size self)
      (second_pool_stride self) VALID in
  let inputs := identity inputs "final_avg_pool" in
  let inputs := contrib_layers_flatten inputs in
  let inputs :=
    contrib_layers_fully_connected inputs (num_classes self)
      fully_connected_default_activation_fn (weight_decay self) in
  let inputs := identity inputs "final_dense" in
  ret inputs.

(** The configuration object read by [build_resnet_].  [params.json] may
    hold further keys (training hyper-parameters, and possibly a [version]);
    they are kept in [p_version] and [p_other]. *)
Record Params : Type := mkParams {
  p_bottleneck : bool;
  p_num_classes : Z;
  p_num_filters : Z;
  p_kernel_size : Z;
  p_conv_stride : Z;
  p_first_pool_size : option Z;
  p_first_pool_stride : option Z;
  p_second_pool_size : Z;
  p_second_pool_stride : Z;
  p_block_sizes : list Z;
  p_block_strides : list Z;
  p_weight_decay : Q;
  p_image_size : Z;
  p_version : option Z;
  p_other : list (string * Q)
}.

(** [params] with its [version] entry set to [v]. *)
Definition with_version (v : option Z) (params : Params) : Params :=
  mkParams (p_bottleneck params) (p_num_classes params) (p_num_filters params)
    (p_kernel_size params) (p_conv_stride params) (p_first_pool_size params)
    (p_first_pool_stride params) (p_second_pool_size params)
    (p_second_pool_stride params) (p_block_sizes params)
    (p_block_strides params) (p_weight_decay params) (p_image_size params)
    v (p_other params).

(** The dictionary [inputs] of [build_resnet_], of which only the entry
    ['images'] is read. *)
Record Inputs : Type := mkInputs { images : tensor }.

(** The constructor call [Model(...)] that [build_resnet_] makes. *)
Definition build_resnet_Model (params : Params) : result Model :=
  Model__init__ (p_bottleneck params) (p_num_classes params)
    (p_num_filters params) (p_kernel_size params) (p_conv_stride params)
    (p_first_pool_size params) (p_first_pool_stride params)
    (p_second_pool_size params) (p_second_pool_stride params)
    (p_block_sizes params) (p_block_strides params)
    (p_num_classes params) DEFAULT_VERSION (p_weight_decay params).

Definition build_resnet_ (is_training : bool) (inputs : Inputs)
    (params : Params) : result tensor :=
  resnet <- build_resnet_Model params ;;
  let images := images inputs in
  let expected :=
    [None; Some (p_image_size params); Some (p_image_size params); Some 3] in
  if match get_shape images with
     | Some sh => shape_eqb sh expected
     | None => false
     end
  then
    let out := images in
    Model__call__ resnet out is_training
  else raise (AssertionError "").

(** The four pairs of flag and block function that [Model.__init__] can
    set. *)
Definition fits (bottleneck : bool) (block_fn : block_fn_t) : Prop :=
  if bottleneck
  then block_fn = _bottleneck_block_v1 \/ block_fn = _bottleneck_block_v2
  else block_fn = _building_block_v1 \/ block_fn = _building_block_v2.

(** [self] with another list as [block_strides]. *)
Definition with_block_strides (strides : list Z) (self : Model) : Model :=
  mkModel (resnet_version self) (bottleneck self) (block_fn self)
    (num_classes self) (num_filters self) (kernel_size self)
    (conv_stride self) (first_pool_size self) (first_pool_stride self)
    (second_pool_size self) (second_pool_stride self) (block_sizes self)
    strides (final_size self) (weight_decay self).

(** The length of a spatial axis of length [n] once the initial
    convolution, the optional initial pooling and the stages have divided
    it, each rounding up. *)
Definition spatial_out (self : Model) (n : Z) : Z :=
  let n := ceil_div n (conv_stride self) in
  let n :=
    if truthy (first_pool_size self) then
      match first_pool_stride self with
      | Some s => ceil_div n s
      | None => n
      end
    else n in
  fold_left ceil_div
    (firstn (List.length (block_sizes self)) (block_strides self)) n.

End Resnet2.

(* ====================================================================== *)
(** ** Python dictionaries

    Insertion-ordered, as an association list; [wf] says the keys are
    distinct, which every dictionary satisfies. *)

Module Dict.

Definition t (V : Type) : Type := list (string * V).

Definition keys {V : Type} (d : t V) : list string := map fst d.

Definition wf {V : Type} (d : t V) : Prop := NoDup (keys d).

(** [d[k]] *)
Fixpoint get {V : Type} (d : t V) (k : string) : result V :=
  match d with
  | [] => raise (KeyError k)
  | (k', v) :: d' => if String.eqb k k' then ret v else get d' k
  end.

(** [d[k] = v]: an existing key keeps its place, a new one goes last. *)
Fixpoint set {V : Type} (d : t V) (k : string) (v : V) : t V :=
  match d with
  | [] => [(k, v)]
  | (k', v') :: d' =>
      if String.eqb k k' then (k, v) :: d' else (k', v') :: set d' k v
  end.

End Dict.

(* ====================================================================== *)
(** ** synthesize_results.py, with exact numbers

    The numbers of the metric files are read here as exact rationals.
    This reading decides which entries raise, in which order the entries
    are visited and how the table is laid out; the values the code stores
    are binary64 values and are those of [SynthesizeResultsFloat]
    below. *)

Module SynthesizeResults.

Open Scope Q_scope.

(** One experiment's metric file: metric name to number. *)
Definition entry : Type := Dict.t Q.

(** [metrics]: experiment directory to its metric file. *)
Definition metrics_t : Type := Dict.t entry.

(** True division of Python 3: a zero divisor raises. *)
Definition truediv (a b : Q) : result Q :=
  if Qeq_bool b 0 then raise ZeroDivisionError else ret (a / b).

(** One turn of the loop of [metrics_to_table]. *)
Definition F2_step (metrics : metrics_t) (metric : string)
    : result metrics_t :=
  e <- Dict.get metrics metric ;;
  precision <- Dict.get e "precision" ;;
  e <- Dict.get metrics metric ;;
  recall <- Dict.get e "recall" ;;
  F2_metric <- truediv (5 * precision * recall) (4 * precision + recall) ;;
  e <- Dict.get metrics metric ;;
  ret (Dict.set metrics metric (Dict.set e "F2" F2_metric)).

(** The loop [for metric in list(metrics.keys())] over a snapshot of the
    keys.  [metrics] is changed in place, so the state reached when a turn
    raises is returned together with the exception. *)
Fixpoint F2_loop (ks : list string) (metrics : metrics_t)
    : metrics_t * result unit :=
  match ks with
  | [] => (metrics, ret tt)
  | metric :: ks' =>
      match F2_step metrics metric with
      | inl e => (metrics, inl e)
      | inr metrics' => F2_loop ks' metrics'
      end
  end.

(** What [tabulate] is called with. *)
Record table_t : Type := mkTable {
  rows : list (string * list Q);
  headers : list string;
  tablefmt : string
}.

(** [[values[h] for h in headers]] *)
Fixpoint row_values (values : entry) (hs : list string) : result (list Q) :=
  match hs with
  | [] => ret []
  | h :: hs' =>
      v <- Dict.get values h ;;
      vs <- row_values values hs' ;;
      ret (v :: vs)
  end.

(** [[[subdir] + ... for subdir, values in metrics.items()]] *)
Fixpoint table_rows (items : list (string * entry)) (hs : list string)
    : result (list (string * list Q)) :=
  match items with
  | [] => ret []
  | (subdir, values) :: items' =>
      r <- row_values values hs ;;
      rs <- table_rows items' hs ;;
      ret ((subdir, r) :: rs)
  end.

(** [metrics_to_table]: the final state of [metrics] and the value returned
    (the call of [tabulate]) or the exception raised.  The LaTeX table is
    only printed and is left out. *)
Definition metrics_to_table (metrics : metrics_t)
    : metrics_t * result table_t :=
  match F2_loop (Dict.keys metrics) metrics with
  | (metrics, inl e) => (metrics, inl e)
  | (metrics, inr _) =>
      (metrics,
       k0 <- match Dict.keys metrics with
             | [] => raise IndexError
             | k :: _ => ret k
             end ;;
       first <- Dict.get metrics k0 ;;
       let headers := Dict.keys first in
       table <- table_rows metrics headers ;;
       let res := mkTable table headers "pipe" in
       ret res)
  end.

(** *** The loop, entry by entry

    What one turn of the loop does to the entry it visits. *)
Definition F2_entry (e : entry) : result entry :=
  precision <- Dict.get e "precision" ;;
  recall <- Dict.get e "recall" ;;
  F2_metric <- truediv (5 * precision * recall) (4 * precision + recall) ;;
  ret (Dict.set e "F2" F2_metric).

(** The entries updated in order up to the first one that raises; that
    one and the entries after it are left as they are. *)
Fixpoint F2_scan (metrics : metrics_t) : metrics_t * result unit :=
  match metrics with
  | [] => ([], ret tt)
  | (k, e) :: rest =>
      match F2_entry e with
      | inl err => ((k, e) :: rest, inl err)
      | inr e' =>
          let (rest', r) := F2_scan rest in ((k, e') :: rest', r)
      end
  end.

(** *** The experiment directories

    [os.path.join(a, b)] of [posixpath], for two arguments. *)
Fixpoint ends_with_slash (s : string) : bool :=
  match s with
  | EmptyString => false
  | String c EmptyString => Ascii.eqb c "/"
  | String _ s' => ends_with_slash s'
  end.

Definition os_path_join (a b : string) : string :=
  if String.prefix "/" b then b
  else if String.eqb a "" || ends_with_slash a then (a ++ b)%string
  else (a ++ "/" ++ b)%string.

(** A file-system entry: a file, with the metric table that [json.load]
    reads from it ([None] when it does not parse), or a directory with
    its entries, in the order [os.listdir] gives them. *)
Unset Elimination Schemes.
Inductive node : Type :=
| File (content : option entry)
| Dir (children : list (string * node)).
Set Elimination Schemes.

Definition find_child (name : string) (children : list (string * node))
    : option node :=
  option_map snd (find (fun c => String.eqb (fst c) name) children).

(** The loop [for subdir in os.listdir(parent_dir)], with the recursive
    call as [rec]: entries that are not directories are skipped. *)
Fixpoint aggregate_children
    (rec : string -> node -> metrics_t -> metrics_t * result unit)
    (parent_dir : string) (l : list (string * node)) (metrics : metrics_t)
    : metrics_t * result unit :=
  match l with
  | [] => (metrics, ret tt)
  | (subdir, child) :: l' =>
      match child with
      | File _ => aggregate_children rec parent_dir l' metrics
      | Dir _ =>
          match rec (os_path_join parent_dir subdir) child metrics with
          | (metrics, inl e) => (metrics, inl e)
          | (metrics, inr _) => aggregate_children rec parent_dir l' metrics
          end
      end
  end.

(** [aggregate_metrics(parent_dir, metrics)], where [parent_dir] names the
    directory [n].  [metrics] is changed in place: the state reached is
    returned with the outcome. *)
Fixpoint aggregate_node (parent_dir : string) (n : node) (metrics : metrics_t)
    {struct n} : metrics_t * result unit :=
  match n with
  | File _ => (metrics, ret tt)
  | Dir children =>
      let loaded :=
        match find_child "metrics_eval_best_weights.json" children with
        | Some (File (Some j)) => (Dict.set metrics parent_dir j, ret tt)
        | Some (File None) =>
            (metrics, raise (ValueError "metrics_eval_best_weights.json"))
        | _ => (metrics, ret tt)
        end in
      match loaded with
      | (metrics, inl e) => (metrics, inl e)
      | (metrics, inr _) =>
          aggregate_children (fun p c m => aggregate_node p c m) parent_dir
            children metrics
      end
  end.

Definition aggregate_metrics (parent_dir : string)
    (children : list (string * node)) (metrics : metrics_t)
    : metrics_t * result unit :=
  aggregate_node parent_dir (Dir children) metrics.

(** The script: aggregate from an empty table, then build the table.
    Printing it and writing [results.md] are left out. *)
Definition main (parent_dir : string) (children : list (string * node))
    : result table_t :=
  let metrics := [] in
  match aggregate_metrics parent_dir children metrics with
  | (_, inl e) => inl e
  | (metrics, inr _) => snd (metrics_to_table metrics)
  end.

(** Some directory of the tree holds a metric file. *)
Fixpoint has_results (n : node) : bool :=
  match n with
  | File _ => false
  | Dir children =>
      match find_child "metrics_eval_best_weights.json" children with
      | Some (File _) => true
      | _ => false
      end
      || existsb (fun c => has_results (snd c)) children
  end.

(** The names in the tree are names as [os.listdir] gives them: not
    empty and not starting with a slash. *)
Definition name_ok (name : string) : bool :=
  negb (String.eqb name "") && negb (String.prefix "/" name).

Fixpoint names_ok (n : node) : bool :=
  match n with
  | File _ => true
  | Dir children =>
      forallb (fun c => name_ok (fst c) && names_ok (snd c)) children
  end.

(** Induction on trees, with the hypothesis for every entry of a
    directory. *)
Fixpoint node_ind' (P : node -> Prop)
    (HF : forall content, P (File content))
    (HD : forall children,
        Forall (fun c => P (snd c)) children -> P (Dir children))
    (n : node) {struct n} : P n :=
  match n with
  | File content => HF content
  | Dir children =>
      HD children
        ((fix go (l : list (string * node)) : Forall (fun c => P (snd c)) l :=
            match l with
            | [] => Forall_nil _
            | c :: l' => Forall_cons c (node_ind' P HF HD (snd c)) (go l')
            end) children)
  end.

(** Entry [k] of [metrics] holds precision [p] and recall [r]. *)
Definition has_scores (metrics : metrics_t) (k : string) (p r : Q) : Prop :=
  exists e,
    Dict.get metrics k = ret e
    /\ Dict.get e "precision" = ret p
    /\ Dict.get e "recall" = ret r.

(** The state of [metrics] in the loop, against its initial state [orig]:
    the keys and every entry's precision and recall are as they were, and
    the entries of the keys in [done] hold their F2 value. *)
Definition loop_inv (orig cur : metrics_t) (done : list string) : Prop :=
  Dict.keys cur = Dict.keys orig
  /\ forall k p r,
      has_scores orig k p r ->
      exists e',
        Dict.get cur k = ret e'
        /\ Dict.get e' "precision" = ret p
        /\ Dict.get e' "recall" = ret r
        /\ (In k done -> Dict.get e' "F2" = ret (5 * p * r / (4 * p + r))).

End SynthesizeResults.

(* ====================================================================== *)
(** ** synthesize_results.py, with binary64 numbers

    [json.load] gives the reals of a metric file as Python floats, and the
    arithmetic of [metrics_to_table] is the arithmetic of binary64: the
    integer constants 5 and 4 are converted exactly, every operation
    rounds to nearest, and a division raises when the divisor compares
    equal to zero. *)

Module SynthesizeResultsFloat.

Definition entry : Type := Dict.t float.

Definition metrics_t : Type := Dict.t entry.

(** [a / b] on floats. *)
Definition truediv (a b : float) : result float :=
  if PrimFloat.eqb b 0%float then raise ZeroDivisionError
  else ret (a / b)%float.

(** One turn of the loop of [metrics_to_table]. *)
Definition F2_step (metrics : metrics_t) (metric : string)
    : result metrics_t :=
  e <- Dict.get metrics metric ;;
  precision <- Dict.get e "precision" ;;
  e <- Dict.get metrics metric ;;
  recall <- Dict.get e "recall" ;;
  F2_metric <-
    truediv (5 * precision * recall)%float (4 * precision + recall)%float ;;
  e <- Dict.get metrics metric ;;
  ret (Dict.set metrics metric (Dict.set e "F2" F2_metric)).

(** The loop [for metric in list(metrics.keys())]; the state reached when
    a turn raises is returned together with the exception. *)
Fixpoint F2_loop (ks : list string) (metrics : metrics_t)
    : metrics_t * result unit :=
  match ks with
  | [] => (metrics, ret tt)
  | metric :: ks' =>
      match F2_step metrics metric with
      | inl e => (metrics, inl e)
      | inr metrics' => F2_loop ks' metrics'
      end
  end.

(** What [tabulate] is called with. *)
Record table_t : Type := mkTable {
  rows : list (string * list float);
  headers : list string;
  tablefmt : string
}.

Fixpoint row_values (values : entry) (hs : list string)
    : result (list float) :=
  match hs with
  | [] => ret []
  | h :: hs' =>
      v <- Dict.get values h ;;
      vs <- row_values values hs' ;;
      ret (v :: vs)
  end.

Fixpoint table_rows (items : list (string * entry)) (hs : list string)
    : result (list (string * list float)) :=
  match items with
  | [] => ret []
  | (subdir, values) :: items' =>
      r <- row_values values hs ;;
      rs <- table_rows items' hs ;;
      ret ((subdir, r) :: rs)
  end.

Definition metrics_to_table (metrics : metrics_t)
    : metrics_t * result table_t :=
  match F2_loop (Dict.keys metrics) metrics with
  | (metrics, inl e) => (metrics, inl e)
  | (metrics, inr _) =>
      (metrics,
       k0 <- match Dict.keys metrics with
             | [] => raise IndexError
             | k :: _ => ret k
             end ;;
       first <- Dict.get metrics k0 ;;
       let headers := Dict.keys first in
       table <- table_rows metrics headers ;;
       let res := mkTable table headers "pipe" in
       ret res)
  end.

(** Entry [k] of [metrics] holds precision [p] and recall [r]. *)
Definition has_scores (metrics : metrics_t) (k : string) (p r : float)
    : Prop :=
  exists e,
    Dict.get metrics k = ret e
    /\ Dict.get e "precision" = ret p
    /\ Dict.get e "recall" = ret r.

(** The binary64 value of [5*p*r / (4*p + r)]. *)
Definition F2_value (p r : float) : float :=
  (5 * p * r / (4 * p + r))%float.

(** The state of [metrics] in the loop, against its initial state. *)
Definition loop_inv (orig cur : metrics_t) (done : list string) : Prop :=
  Dict.keys cur = Dict.keys orig
  /\ forall k p r,
      has_scores orig k p r ->
      exists e',
        Dict.get cur k = ret e'
        /\ Dict.get e' "precision" = ret p
        /\ Dict.get e' "recall" = ret r
        /\ (In k done -> Dict.get e' "F2" = ret (F2_value p r)).

(** After [metrics_to_table], every entry holding a precision [p] and a
    recall [r] holds the binary64 value of [5*p*r / (4*p + r)] as F2. *)
Definition F2_set_everywhere (metrics : metrics_t) : Prop :=
  forall k p r,
    has_scores metrics k p r ->
    exists e',
      Dict.get (fst (metrics_to_table metrics)) k = ret e'
      /\ Dict.get e' "F2" = ret (F2_value p r).

End SynthesizeResultsFloat.

(* ====================================================================== *)
(** ** train.py: start-up, up to the check of the label lists *)

Module Train.

(** [s.split(sep)] for a one-character separator. *)
Fixpoint split (sep : Ascii.ascii) (s : string) : list string :=
  match s with
  | EmptyString => [EmptyString]
  | String c s' =>
      if Ascii.eqb c sep then EmptyString :: split sep s'
      else
        match split sep s' with
        | [] => [String c EmptyString]
        | w :: ws => String c w :: ws
        end
  end.

(** [label in l] *)
Definition mem (label : string) (l : list string) : bool :=
  existsb (String.eqb label) l.

(** The two inner loops for one of the two tag columns, from the list
    [acc] built so far. *)
Definition add_labels (acc : list string) (tag_str : string) : list string :=
  let labels := split " "%char tag_str in
  fold_left
    (fun acc label => if mem label acc then acc else (acc ++ [label])%list)
    labels acc.

Definition unique_labels (tags : list string) : list string :=
  fold_left add_labels tags [].

(** What start-up reads from the command line and the file system. *)
Record Env : Type := mkEnv {
  json_path : string;
  json_path_isfile : bool;
  model_dir_has_best_weights : bool;
  restore_from : option string;
  train_tags : list string;
  eval_tags : list string
}.

(** Lines 32 to 68 of the script: the two guards on the experiment
    directory, then the label lists [label_list[0]] (train) and
    [label_list[1]] (dev) and the assertion on them. *)
Definition main_startup (env : Env) : result (list string * list string) :=
  if negb (json_path_isfile env) then
    raise (AssertionError
             ("No json configuration file found at " ++ json_path env))
  else
    let overwritting :=
      model_dir_has_best_weights env
      && match restore_from env with None => true | Some _ => false end in
    if overwritting then
      raise (AssertionError
               "Weights found in model_dir, aborting to avoid overwrite")
    else
      let label_list :=
        (unique_labels (train_tags env), unique_labels (eval_tags env)) in
      if (List.length (fst label_list) =? List.length (snd label_list))%nat then
        ret label_list
      else raise (AssertionError "").

(** The elements of a list in the order of their first occurrence. *)
Fixpoint first_occurrences (l : list string) : list string :=
  match l with
  | [] => []
  | x :: l' =>
      x :: filter (fun y => negb (String.eqb y x)) (first_occurrences l')
  end.

(** Two label lists hold the same set of labels. *)
Definition same_labels (l1 l2 : list string) : Prop :=
  forall label, In label l1 <-> In label l2.

End Train.

(* ====================================================================== *)
(** * Properties of the residual-network construction *)

Section Shortcuts.

Import Tf Resnet2.

Variables (inputs : tensor) (filters : Z) (training : bool).
Variables (strides : Z) (weight_decay : Q).

(** C3.  In both v1 blocks the output is [relu (main + shortcut)], where the
    shortcut is [batch_norm (projection inputs)] when a projection is given
    (the normalization takes the projection's result), and the raw input
    when none is given.  The main path is the same in both cases. *)
Theorem v1_shortcut_is_normalized_projection :
  (exists main,
      (forall p : projection_t,
          _building_block_v1 inputs filters training (Some p) strides
            weight_decay
          = nn_relu (add main (batch_norm (p inputs weight_decay) training)))
      /\ _building_block_v1 inputs filters training None strides weight_decay
         = nn_relu (add main inputs))
  /\ (exists main,
      (forall p : projection_t,
          _bottleneck_block_v1 inputs filters training (Some p) strides
            weight_decay
          = nn_relu (add main (batch_norm (p inputs weight_decay) training)))
      /\ _bottleneck_block_v1 inputs filters training None strides weight_decay
         = nn_relu (add main inputs)).
Proof.
  split; eexists; split; intros; reflexivity.
Qed.

(** C4.  In both v2 blocks the output is [main + shortcut] with nothing
    applied after the sum; the shortcut is the raw input when no projection
    is given, and the projection of [relu (batch_norm inputs)] when one
    is. *)
Theorem v2_shortcut_projects_preactivated_input :
  (exists main,
      (forall p : projection_t,
          _building_block_v2 inputs filters training (Some p) strides
            weight_decay
          = add main (p (nn_relu (batch_norm inputs training)) weight_decay))
      /\ _building_block_v2 inputs filters training None strides weight_decay
         = add main inputs)
  /\ (exists main,
      (forall p : projection_t,
          _bottleneck_block_v2 inputs filters training (Some p) strides
            weight_decay
          = add main (p (nn_relu (batch_norm inputs training)) weight_decay))
      /\ _bottleneck_block_v2 inputs filters training None strides weight_decay
         = add main inputs).
Proof.
  split; eexists; split; intros; reflexivity.
Qed.

End Shortcuts.

Section BlockLayer.

Import Tf Resnet2.

Lemma range_length (lo hi : Z) : List.length (range lo hi) = Z.to_nat (hi - lo).
Proof.
  unfold range. now rewrite length_map, length_seq.
Qed.

(** A loop whose body ignores the loop variable runs the body once per
    element. *)
Lemma fold_left_const_iter {A B : Type} (f : A -> A) (l : list B) (a : A) :
  fold_left (fun acc _ => f acc) l a = Nat.iter (List.length l) f a.
Proof.
  revert a. induction l as [|b l IH]; intros a; simpl.
  - reflexivity.
  - rewrite IH. clear IH. induction (List.length l) as [|n IHn]; simpl.
    + reflexivity.
    + now rewrite IHn.
Qed.

(** C2.  A block layer of [n >= 1] blocks calls the block function [n]
    times in a chain: the first call receives the projection shortcut (the
    1x1 convolution to [filters_out] with the stage's strides) and the
    stage's strides; each of the following [n - 1] calls receives no
    projection and strides 1. *)
Theorem block_layer_first_block_only
    (inputs : tensor) (filters : Z) (bottleneck : bool) (block_fn : block_fn_t)
    (n strides : Z) (training : bool) (name : string) (weight_decay : Q) :
  1 <= n ->
  let filters_out := if bottleneck then filters * 4 else filters in
  let projection : projection_t :=
    fun x wd => conv2d_fixed_padding x filters_out 1 strides wd in
  let first :=
    block_fn inputs filters training (Some projection) strides weight_decay in
  let next := fun x => block_fn x filters training None 1 weight_decay in
  block_layer inputs filters bottleneck block_fn n strides training name
    weight_decay
  = identity (Nat.iter (Z.to_nat n - 1) next first) name.
Proof.
  intros Hn. cbv zeta. unfold block_layer.
  rewrite (fold_left_const_iter
             (fun x => block_fn x filters training None 1 weight_decay)).
  rewrite range_length.
  replace (Z.to_nat (n - 1)) with (Z.to_nat n - 1)%nat by lia.
  reflexivity.
Qed.

Lemma block_layer_first_block_only_witness :
  block_layer (placeholder [None; Some 8; Some 8; Some 4]) 16 true
    _bottleneck_block_v2 3 2 true "block_layer2" (1 # 1000)
  = identity
      (_bottleneck_block_v2
         (_bottleneck_block_v2
            (_bottleneck_block_v2 (placeholder [None; Some 8; Some 8; Some 4])
               16 true
               (Some (fun x wd => conv2d_fixed_padding x 64 1 2 wd)) 2
               (1 # 1000))
            16 true None 1 (1 # 1000))
         16 true None 1 (1 # 1000))
      "block_layer2".
Proof.
  apply (block_layer_first_block_only
           (placeholder [None; Some 8; Some 8; Some 4]) 16 true
           _bottleneck_block_v2 3 2 true "block_layer2" (1 # 1000)).
  lia.
Defined.

End BlockLayer.

Section ConvShape.

Import Tf Resnet2.

(** Rounding up and rounding down: for a positive stride,
    ceil(h / s) = floor((h - 1) / s) + 1. *)
Lemma ceil_div_floor (h s : Z) : 0 < s -> ceil_div h s = (h - 1) / s + 1.
Proof.
  intros Hs. unfold ceil_div.
  assert (E : - h / s = - ((h - 1) / s) - 1).
  { symmetry. apply Z.div_unique with (r := s - 1 - (h - 1) mod s).
    - left. pose proof (Z.mod_pos_bound (h - 1) s Hs). lia.
    - pose proof (Z.div_mod (h - 1) s ltac:(lia)). nia. }
  rewrite E. lia.
Qed.

Lemma ceil_div_1 (h : Z) : ceil_div h 1 = h.
Proof.
  unfold ceil_div. rewrite Z.div_1_r. lia.
Qed.

Lemma pad_dim_0 (d : dim) : pad_dim d (0, 0) = d.
Proof.
  destruct d as [n|]; simpl; [f_equal; lia | reflexivity].
Qed.

Lemma pad_dim_Some (n : Z) (p : Z * Z) :
  pad_dim (Some n) p = Some (n + (fst p + snd p)).
Proof.
  simpl. f_equal. lia.
Qed.

(** Padding the two spatial axes by amounts that are not negative. *)
Lemma pad_shape_spatial (b h w c : dim) (pad_beg pad_end : Z) :
  0 <= pad_beg -> 0 <= pad_end ->
  pad_shape [b; h; w; c]
    [(0, 0); (pad_beg, pad_end); (pad_beg, pad_end); (0, 0)]
  = Some [b; pad_dim h (pad_beg, pad_end); pad_dim w (pad_beg, pad_end); c].
Proof.
  intros Hb He. cbn [pad_shape fst snd].
  change (0 <? 0) with false. cbn [orb].
  destruct (Z.ltb_spec pad_beg 0) as [|_]; [lia|].
  destruct (Z.ltb_spec pad_end 0) as [|_]; [lia|].
  cbn [orb]. now rewrite !pad_dim_0.
Qed.

Lemma fixed_padding_nonneg (k : Z) :
  1 <= k -> 0 <= (k - 1) / 2 /\ 0 <= k - 1 - (k - 1) / 2.
Proof.
  intros Hk.
  pose proof (Z.div_mod (k - 1) 2 ltac:(lia)).
  pose proof (Z.mod_pos_bound (k - 1) 2 ltac:(lia)). lia.
Qed.

(** Along one axis of length [h >= 1], a [VALID] window of size [k] and
    stride [s > 1] over the input padded by [k - 1] yields
    floor((h + (k - 1) - k) / s) + 1 = ceil(h / s) positions. *)
Lemma window_out_padded (h k s : Z) (p : Z * Z) :
  1 <= h -> 1 <= k -> 1 < s -> fst p + snd p = k - 1 ->
  window_out VALID k s (pad_dim (Some h) p)
  = Some (Some ((h + (k - 1) - k) / s + 1)).
Proof.
  intros Hh Hk Hs Hp. simpl.
  destruct (Z.ltb_spec (fst p + h + snd p) k) as [Hlt|_]; [lia|].
  do 2 f_equal. rewrite ceil_div_floor by lia. do 2 f_equal. lia.
Qed.

(** C5.  On an input of spatial size [H x W] and a kernel size [k >= 1]:
    with stride 1 the output has spatial size [H x W]; with a stride
    [s > 1] the input is padded by [pad_total = k - 1] along each spatial
    axis, split into [pad_beg = pad_total // 2] and
    [pad_end = pad_total - pad_beg], the convolution is [VALID], and the
    output spatial size is floor((H + pad_total - k) / s) + 1, which is
    ceil(H / s).  The output has [filters] channels. *)
Theorem conv2d_fixed_padding_shape
    (x : tensor) (b c : dim) (H W filters k s : Z) (weight_decay : Q) :
  get_shape x = Some [b; Some H; Some W; c] ->
  1 <= H -> 1 <= W -> 1 <= k ->
  (s = 1 ->
   get_shape (conv2d_fixed_padding x filters k s weight_decay)
   = Some [b; Some H; Some W; Some filters])
  /\ (1 < s ->
      let pad_total := k - 1 in
      let pad_beg := pad_total / 2 in
      let pad_end := pad_total - pad_beg in
      let padded :=
        pad x [(0, 0); (pad_beg, pad_end); (pad_beg, pad_end); (0, 0)] in
      conv2d_fixed_padding x filters k s weight_decay
      = contrib_layers_conv2d padded filters k s VALID weight_decay
      /\ get_shape padded
         = Some [b; Some (H + pad_total); Some (W + pad_total); c]
      /\ get_shape (conv2d_fixed_padding x filters k s weight_decay)
         = Some [b; Some ((H + pad_total - k) / s + 1);
                 Some ((W + pad_total - k) / s + 1); Some filters]
      /\ (H + pad_total - k) / s + 1 = ceil_div H s
      /\ (W + pad_total - k) / s + 1 = ceil_div W s).
Proof.
  intros Hx HH HW Hk. split.
  - intros ->. unfold conv2d_fixed_padding. simpl. rewrite Hx. simpl.
    now rewrite !ceil_div_1.
  - intros Hs. cbv zeta.
    assert (Econv : conv2d_fixed_padding x filters k s weight_decay
                    = contrib_layers_conv2d (fixed_padding x k) filters k s
                        VALID weight_decay).
    { unfold conv2d_fixed_padding.
      destruct (Z.gtb_spec s 1) as [_|]; [|lia].
      destruct (Z.eqb_spec s 1) as [|_]; [lia|]. reflexivity. }
    split; [exact Econv|]. split; [|split; [|split]].
    + cbn [get_shape]. rewrite Hx.
      rewrite pad_shape_spatial by (apply fixed_padding_nonneg; lia).
      rewrite !pad_dim_Some. cbn [fst snd].
      replace ((k - 1) / 2 + (k - 1 - (k - 1) / 2)) with (k - 1) by lia.
      reflexivity.
    + rewrite Econv. unfold fixed_padding. cbv zeta.
      cbn [get_shape]. rewrite Hx.
      rewrite pad_shape_spatial by (apply fixed_padding_nonneg; lia).
      cbn [window_shape].
      rewrite !window_out_padded by (cbn [fst snd]; lia).
      reflexivity.
    + rewrite ceil_div_floor by lia. do 2 f_equal. lia.
    + rewrite ceil_div_floor by lia. do 2 f_equal. lia.
Qed.

Lemma conv2d_fixed_padding_shape_witness :
  get_shape
    (conv2d_fixed_padding (placeholder [None; Some 7; Some 32; Some 3]) 8 3 2
       (1 # 1000))
  = Some [None; Some ((7 + (3 - 1) - 3) / 2 + 1);
          Some ((32 + (3 - 1) - 3) / 2 + 1); Some 8].
Proof.
  apply (conv2d_fixed_padding_shape
           (placeholder [None; Some 7; Some 32; Some 3]) None (Some 3) 7 32 8
           3 2 (1 # 1000));
    [reflexivity | lia | lia | lia | lia].
Defined.

End ConvShape.

Section ModelConstruction.

Import Tf Resnet2.

(** The four block functions are four different functions: they differ on
    a probe input. *)
Lemma block_functions_distinct :
  _building_block_v1 <> _building_block_v2
  /\ _building_block_v1 <> _bottleneck_block_v1
  /\ _building_block_v1 <> _bottleneck_block_v2
  /\ _building_block_v2 <> _bottleneck_block_v1
  /\ _building_block_v2 <> _bottleneck_block_v2
  /\ _bottleneck_block_v1 <> _bottleneck_block_v2.
Proof.
  repeat split; intros E;
    apply (f_equal (fun f : block_fn_t => f (placeholder []) 1 true None 1 0%Q))
      in E; discriminate E.
Qed.

(** C6.  Construction raises [ValueError] exactly when the version is
    neither 1 nor 2; for version 1 or 2 it returns a model whose block
    function is determined by the version and the bottleneck flag. *)
Theorem Model_init_version_check
    (bottleneck : bool) (num_classes num_filters kernel_size conv_stride : Z)
    (first_pool_size first_pool_stride : option Z)
    (second_pool_size second_pool_stride : Z)
    (block_sizes block_strides : list Z) (final_size version : Z)
    (weight_decay : Q) :
  let constructed :=
    Model__init__ bottleneck num_classes num_filters kernel_size conv_stride
      first_pool_size first_pool_stride second_pool_size second_pool_stride
      block_sizes block_strides final_size version weight_decay in
  ((exists e, constructed = inl e) <-> version <> 1 /\ version <> 2)
  /\ (version <> 1 /\ version <> 2 ->
      exists msg, constructed = inl (ValueError msg))
  /\ (version = 1 \/ version = 2 ->
      exists m,
        constructed = inr m
        /\ resnet_version m = version
        /\ block_fn m
           = match version, bottleneck with
             | 1, false => _building_block_v1
             | 1, true => _bottleneck_block_v1
             | _, false => _building_block_v2
             | _, true => _bottleneck_block_v2
             end).
Proof.
  cbv zeta. unfold Model__init__.
  destruct (Z.eqb_spec version 1) as [E1|N1];
    destruct (Z.eqb_spec version 2) as [E2|N2]; simpl.
  - lia.
  - subst version. split; [split|split].
    + intros [e He]. discriminate He.
    + intros [N _]. now contradiction N.
    + intros [N _]. now contradiction N.
    + intros _. eexists. split; [reflexivity|]. split; [reflexivity|].
      simpl. now destruct bottleneck.
  - subst version. split; [split|split].
    + intros [e He]. discriminate He.
    + intros [_ N]. now contradiction N.
    + intros [_ N]. now contradiction N.
    + intros _. eexists. split; [reflexivity|]. split; [reflexivity|].
      simpl. now destruct bottleneck.
  - split; [split|split].
    + intros _. now split.
    + intros _. eexists. reflexivity.
    + intros _. eexists. reflexivity.
    + intros [E|E]; contradiction.
Qed.

Lemma Model_init_version_check_witness :
  (exists msg,
      Model__init__ false 17 16 3 1 None None 4 1 [2; 2] [1; 2] 17 3 (1 # 1000)
      = inl (ValueError msg))
  /\ (exists m,
      Model__init__ true 17 16 3 1 None None 4 1 [2; 2] [1; 2] 17 1 (1 # 1000)
      = inr m
      /\ resnet_version m = 1
      /\ block_fn m = _bottleneck_block_v1).
Proof.
  split.
  - apply (Model_init_version_check false 17 16 3 1 None None 4 1 [2; 2]
             [1; 2] 17 3 (1 # 1000)).
    split; discriminate.
  - apply (Model_init_version_check true 17 16 3 1 None None 4 1 [2; 2]
             [1; 2] 17 1 (1 # 1000)).
    left. reflexivity.
Defined.

End ModelConstruction.

Section ModelCall.

Import Tf Resnet2.

(** The stage loop returns when every stage index has a stride. *)
Lemma block_layers_returns (self : Model) (training : bool)
    (sizes : list Z) :
  forall (i : nat) (x : tensor),
    (i + List.length sizes <= List.length (block_strides self))%nat ->
    exists t, block_layers self training i sizes x = inr t.
Proof.
  induction sizes as [|n sizes IH]; intros i x Hlen; simpl in *.
  - now exists x.
  - destruct (nth_error (block_strides self) i) as [s|] eqn:Es.
    + apply IH. lia.
    + apply nth_error_None in Es. lia.
Qed.

(** It raises [IndexError] when [block_strides] is the shorter list. *)
Lemma block_layers_raises (self : Model) (training : bool)
    (sizes : list Z) :
  forall (i : nat) (x : tensor),
    (i <= List.length (block_strides self))%nat ->
    (List.length (block_strides self) < i + List.length sizes)%nat ->
    block_layers self training i sizes x = inl IndexError.
Proof.
  induction sizes as [|n sizes IH]; intros i x Hi Hlen; simpl in *.
  - lia.
  - destruct (nth_error (block_strides self) i) as [s|] eqn:Es.
    + assert (i < List.length (block_strides self))%nat
        by (apply nth_error_Some; congruence).
      apply IH; lia.
    + reflexivity.
Qed.

(** Nothing else comes out of the stage loop. *)
Lemma block_layers_result (self : Model) (training : bool) (sizes : list Z) :
  forall (i : nat) (x : tensor),
    (exists t, block_layers self training i sizes x = inr t)
    \/ block_layers self training i sizes x = inl IndexError.
Proof.
  induction sizes as [|n sizes IH]; intros i x; simpl.
  - left. now exists x.
  - destruct (nth_error (block_strides self) i) as [s|].
    + apply IH.
    + now right.
Qed.

(** C1.  [Model.__call__] does not return raw logits.  Unless
    [block_strides] is shorter than [block_sizes] (then it raises
    [IndexError]), the tensor returned is the output of the final
    fully-connected call under the name [final_dense]; that call is made
    without [activation_fn], so the layer applies the library default
    [tf.nn.relu] to its projection: the value returned is
    relu(xW + b), against the docstring's "A logits Tensor". *)
Theorem Model_call_output_is_activated
    (self : Model) (inputs : tensor) (training : bool) :
  (((List.length (block_sizes self) <= List.length (block_strides self))%nat
    /\ exists features,
        Model__call__ self inputs training
        = inr (identity
                 (contrib_layers_fully_connected features (num_classes self)
                    (Some tf_nn_relu) (weight_decay self))
                 "final_dense"))
   \/ ((List.length (block_strides self) < List.length (block_sizes self))%nat
       /\ Model__call__ self inputs training = inl IndexError))
  /\ (forall logits,
         Model__call__ self inputs training = inr logits ->
         is_raw_logits logits = false).
Proof.
  unfold Model__call__.
  destruct (Nat.le_gt_cases (List.length (block_sizes self))
              (List.length (block_strides self))) as [Hle|Hgt].
  - match goal with
    | |- context [block_layers self training 0 (block_sizes self) ?x] =>
        destruct (block_layers_returns self training (block_sizes self) 0 x)
          as [t Ht]; [simpl; lia | rewrite Ht]
    end.
    cbn [bind ret]. split.
    + left. split; [exact Hle|]. eexists. reflexivity.
    + intros logits E. injection E as <-. reflexivity.
  - match goal with
    | |- context [block_layers self training 0 (block_sizes self) ?x] =>
        rewrite (block_layers_raises self training (block_sizes self) 0 x)
          by (simpl; lia)
    end.
    cbn [bind]. split.
    + right. split; [exact Hgt | reflexivity].
    + intros logits E. discriminate E.
Qed.

(** The same on the configuration of the end-to-end example: stages of
    two basic v2 blocks, 8 filters, one 32 x 32 x 3 image, inference. *)
Lemma Model_call_output_is_activated_example :
  exists features,
    Model__call__
      (mkModel 2 false _building_block_v2 17 8 3 1 None None 4 1 [2; 2]
         [1; 2] 17 (1 # 1000))
      (placeholder [Some 1; Some 32; Some 32; Some 3]) false
    = inr (identity
             (contrib_layers_fully_connected features 17 (Some tf_nn_relu)
                (1 # 1000))
             "final_dense").
Proof.
  eexists. reflexivity.
Qed.

(** C9.  [build_resnet_] constructs the model with version 2 whatever the
    configuration holds, and it is that model it calls: construction
    succeeds and gives the model whose version is 2, whose block function
    is the v2 variant chosen by the bottleneck flag and whose [final_size]
    is [params.num_classes]; when the image shape passes the assertion the
    result of [build_resnet_] is the result of calling this model on the
    images; a [version] entry of the configuration changes nothing; and
    no [ValueError] comes out of [build_resnet_]. *)
Theorem build_resnet_uses_default_version (params : Params) :
  let v2_model :=
    mkModel 2 (p_bottleneck params)
      (if p_bottleneck params then _bottleneck_block_v2
       else _building_block_v2)
      (p_num_classes params) (p_num_filters params) (p_kernel_size params)
      (p_conv_stride params) (p_first_pool_size params)
      (p_first_pool_stride params) (p_second_pool_size params)
      (p_second_pool_stride params) (p_block_sizes params)
      (p_block_strides params) (p_num_classes params)
      (p_weight_decay params) in
  DEFAULT_VERSION = 2
  /\ build_resnet_Model params = inr v2_model
  /\ resnet_version v2_model = 2
  /\ final_size v2_model = p_num_classes params
  /\ (forall is_training inputs,
         build_resnet_ is_training inputs params
         = if match get_shape (images inputs) with
              | Some sh =>
                  shape_eqb sh
                    [None; Some (p_image_size params);
                     Some (p_image_size params); Some 3]
              | None => false
              end
           then Model__call__ v2_model (images inputs) is_training
           else inl (AssertionError ""))
  /\ (forall v is_training inputs,
         build_resnet_ is_training inputs (with_version v params)
         = build_resnet_ is_training inputs params)
  /\ (forall is_training inputs msg,
         build_resnet_ is_training inputs params <> inl (ValueError msg)).
Proof.
  cbv zeta.
  assert (Em : build_resnet_Model params
               = inr (mkModel 2 (p_bottleneck params)
                        (if p_bottleneck params then _bottleneck_block_v2
                         else _building_block_v2)
                        (p_num_classes params) (p_num_filters params)
                        (p_kernel_size params) (p_conv_stride params)
                        (p_first_pool_size params)
                        (p_first_pool_stride params)
                        (p_second_pool_size params)
                        (p_second_pool_stride params) (p_block_sizes params)
                        (p_block_strides params) (p_num_classes params)
                        (p_weight_decay params))).
  { unfold build_resnet_Model, Model__init__, DEFAULT_VERSION. simpl.
    now destruct (p_bottleneck params). }
  split; [reflexivity|]. split; [exact Em|].
  split; [reflexivity|]. split; [reflexivity|].
  split.
  { intros is_training inputs. unfold build_resnet_. rewrite Em.
    reflexivity. }
  split; [reflexivity|].
  intros is_training inputs msg. unfold build_resnet_. rewrite Em.
  cbn [bind].
  destruct (match get_shape (images inputs) with
            | Some sh => shape_eqb sh _
            | None => false
            end); [|discriminate].
  unfold Model__call__.
  match goal with
  | |- context [block_layers ?m ?tr 0 ?sizes ?x] =>
      destruct (block_layers_result m tr sizes 0 x) as [[t Ht]|Ht];
        rewrite Ht; discriminate
  end.
Qed.

End ModelCall.

(* ====================================================================== *)
(** * Properties of the metric aggregation *)

Section DictFacts.

Context {V : Type}.

Lemma get_set_same (d : Dict.t V) (k : string) (v : V) :
  Dict.get (Dict.set d k v) k = ret v.
Proof.
  induction d as [|[k' v'] d IH]; simpl.
  - now rewrite String.eqb_refl.
  - destruct (String.eqb k k') eqn:E; simpl.
    + now rewrite String.eqb_refl.
    + now rewrite E.
Qed.

Lemma get_set_other (d : Dict.t V) (k k' : string) (v : V) :
  k' <> k -> Dict.get (Dict.set d k v) k' = Dict.get d k'.
Proof.
  intros Hne. induction d as [|[k1 v1] d IH]; simpl.
  - destruct (String.eqb_spec k' k); [contradiction | reflexivity].
  - destruct (String.eqb_spec k k1) as [->|Hk]; simpl.
    + destruct (String.eqb_spec k' k1); [contradiction | reflexivity].
    + destruct (String.eqb_spec k' k1); [reflexivity | exact IH].
Qed.

Lemma keys_set_present (d : Dict.t V) (k : string) (v v0 : V) :
  Dict.get d k = ret v0 -> Dict.keys (Dict.set d k v) = Dict.keys d.
Proof.
  induction d as [|[k1 v1] d IH]; simpl.
  - discriminate.
  - destruct (String.eqb_spec k k1) as [->|Hk]; simpl.
    + reflexivity.
    + intros H. f_equal. now apply IH.
Qed.

Lemma get_in_keys (d : Dict.t V) (k : string) (v : V) :
  Dict.get d k = ret v -> In k (Dict.keys d).
Proof.
  induction d as [|[k1 v1] d IH]; simpl.
  - discriminate.
  - destruct (String.eqb_spec k k1) as [->|Hk].
    + now left.
    + intros H. right. now apply IH.
Qed.

Lemma get_not_other_exn (d : Dict.t V) (k : string) (e : exn) :
  Dict.get d k = inl e -> e = KeyError k.
Proof.
  induction d as [|[k1 v1] d IH]; simpl.
  - intros H. now inversion H.
  - destruct (String.eqb k k1); [discriminate | exact IH].
Qed.

End DictFacts.

Section Metrics.

Import SynthesizeResults.
Open Scope Q_scope.

Lemma has_scores_functional (metrics : metrics_t) (k : string)
    (p r p' r' : Q) :
  has_scores metrics k p r -> has_scores metrics k p' r' -> p = p' /\ r = r'.
Proof.
  intros (e & He & Hp & Hr) (e' & He' & Hp' & Hr'). unfold ret in *.
  assert (e = e') as <- by congruence. split; congruence.
Qed.

Lemma F2_step_eq (cur : metrics_t) (k : string) (e : entry) (p r : Q) :
  Dict.get cur k = ret e ->
  Dict.get e "precision" = ret p ->
  Dict.get e "recall" = ret r ->
  F2_step cur k
  = if Qeq_bool (4 * p + r) 0 then inl ZeroDivisionError
    else inr (Dict.set cur k (Dict.set e "F2" (5 * p * r / (4 * p + r)))).
Proof.
  intros He Hp Hr. unfold F2_step. rewrite He. simpl.
  rewrite Hp. simpl. rewrite Hr. simpl. unfold truediv.
  destruct (Qeq_bool (4 * p + r) 0); reflexivity.
Qed.

Lemma loop_inv_init (orig : metrics_t) : loop_inv orig orig [].
Proof.
  split; [reflexivity|].
  intros k p r (e & He & Hp & Hr). exists e. repeat split; try assumption.
  intros [].
Qed.

Lemma loop_inv_incl (orig cur : metrics_t) (d1 d2 : list string) :
  incl d1 d2 -> loop_inv orig cur d2 -> loop_inv orig cur d1.
Proof.
  intros Hincl [Hk H]. split; [exact Hk|].
  intros k p r Hs. destruct (H k p r Hs) as (e' & He' & Hp & Hr & HF).
  exists e'. repeat split; try assumption. intros Hin. apply HF, Hincl, Hin.
Qed.

(** One turn on a key whose divisor is not zero keeps the invariant and
    marks the key. *)
Lemma loop_inv_step (orig cur : metrics_t) (done : list string)
    (k : string) (e : entry) (p r : Q) :
  loop_inv orig cur done ->
  has_scores orig k p r ->
  Dict.get cur k = ret e ->
  Dict.get e "precision" = ret p ->
  Dict.get e "recall" = ret r ->
  loop_inv orig
    (Dict.set cur k (Dict.set e "F2" (5 * p * r / (4 * p + r))))
    (k :: done).
Proof.
  intros [Hkeys Hinv] Hs He Hp Hr. split.
  - rewrite (keys_set_present cur k _ e He). exact Hkeys.
  - intros k2 p2 r2 Hs2.
    destruct (string_dec k2 k) as [->|Hne].
    + destruct (has_scores_functional _ _ _ _ _ _ Hs Hs2) as [<- <-].
      eexists. rewrite get_set_same. split; [reflexivity|].
      rewrite !get_set_other by discriminate.
      split; [exact Hp|]. split; [exact Hr|].
      intros _. apply get_set_same.
    + destruct (Hinv k2 p2 r2 Hs2) as (e2 & He2 & Hp2 & Hr2 & HF).
      exists e2. rewrite get_set_other by exact Hne.
      repeat split; try assumption.
      intros [Heq|Hin]; [congruence | now apply HF].
Qed.

(** The loop over keys that all hold a precision and a recall: either no
    divisor is zero, the loop ends and every key visited holds its F2; or
    a divisor is zero and the loop raises [ZeroDivisionError]. *)
Lemma F2_loop_spec (orig : metrics_t) (ks : list string) :
  forall (cur : metrics_t) (done : list string),
    loop_inv orig cur done ->
    (forall k, In k ks -> exists p r, has_scores orig k p r) ->
    (exists cur',
        F2_loop ks cur = (cur', inr tt)
        /\ loop_inv orig cur' (ks ++ done)
        /\ forall k p r,
            In k ks -> has_scores orig k p r -> ~ 4 * p + r == 0)
    \/ (exists cur',
           F2_loop ks cur = (cur', inl ZeroDivisionError)
           /\ Dict.keys cur' = Dict.keys orig
           /\ exists k p r,
               In k ks /\ has_scores orig k p r /\ 4 * p + r == 0).
Proof.
  induction ks as [|k ks IH]; intros cur done Hinv Hall.
  - left. exists cur. simpl. repeat split; try assumption; try apply Hinv.
    intros k p r [].
  - destruct (Hall k (or_introl eq_refl)) as (p & r & Hs).
    destruct (proj2 Hinv k p r Hs) as (e & He & Hp & Hr & _).
    simpl. rewrite (F2_step_eq cur k e p r He Hp Hr).
    destruct (Qeq_bool (4 * p + r) 0) eqn:Ez.
    + right. exists cur. split; [reflexivity|]. split; [apply Hinv|].
      exists k, p, r. split; [now left|]. split; [exact Hs|].
      now apply Qeq_bool_iff.
    + pose proof (loop_inv_step orig cur done k e p r Hinv Hs He Hp Hr)
        as Hinv'.
      destruct (IH _ _ Hinv' (fun k' Hk' => Hall k' (or_intror Hk')))
        as [(cur' & Hl & Hi & Hnz)|(cur' & Hl & Hk & k' & p' & r' & Hin & Hs' & Hz)].
      * left. exists cur'. split; [exact Hl|]. split.
        -- apply (loop_inv_incl orig cur' _ (ks ++ k :: done)); [|exact Hi].
           intros x Hx. simpl in Hx. apply in_or_app.
           destruct Hx as [<-|Hx]; [right; now left|].
           apply in_app_or in Hx. destruct Hx; [now left | right; now right].
        -- intros k2 p2 r2 [<-|Hin] Hs2.
           ++ destruct (has_scores_functional _ _ _ _ _ _ Hs Hs2) as [<- <-].
              intros Hz. apply Qeq_bool_iff in Hz. congruence.
           ++ now apply (Hnz k2).
      * right. exists cur'. split; [exact Hl|]. split; [exact Hk|].
        exists k', p', r'. split; [now right|]. now split.
Qed.

(** The state [metrics_to_table] leaves is the state the loop leaves. *)
Lemma metrics_to_table_state (metrics : metrics_t) :
  fst (metrics_to_table metrics)
  = fst (F2_loop (Dict.keys metrics) metrics).
Proof.
  unfold metrics_to_table.
  destruct (F2_loop (Dict.keys metrics) metrics) as [cur [e|u]]; reflexivity.
Qed.

Lemma row_values_exn (values : entry) (hs : list string) (e : exn) :
  row_values values hs = inl e -> e <> ZeroDivisionError.
Proof.
  revert e. induction hs as [|h hs IH]; intros e; simpl.
  - discriminate.
  - destruct (Dict.get values h) as [e1|v] eqn:Ev; simpl.
    + intros H. injection H as <-.
      rewrite (get_not_other_exn _ _ _ Ev). discriminate.
    + destruct (row_values values hs) as [e2|vs]; simpl.
      * intros H. injection H as <-. now apply IH.
      * discriminate.
Qed.

Lemma table_rows_exn (items : list (string * entry)) (hs : list string)
    (e : exn) :
  table_rows items hs = inl e -> e <> ZeroDivisionError.
Proof.
  revert e. induction items as [|[subdir values] items IH]; intros e; simpl.
  - discriminate.
  - destruct (row_values values hs) as [e1|r] eqn:Er; simpl.
    + intros H. injection H as <-. now apply (row_values_exn values hs).
    + destruct (table_rows items hs) as [e2|rs]; simpl.
      * intros H. injection H as <-. now apply IH.
      * discriminate.
Qed.

(** Once the loop has ended, building the table divides nothing. *)
Lemma metrics_to_table_after_loop (metrics cur : metrics_t) :
  F2_loop (Dict.keys metrics) metrics = (cur, inr tt) ->
  snd (metrics_to_table metrics) <> inl ZeroDivisionError.
Proof.
  intros Hl. unfold metrics_to_table. rewrite Hl. simpl.
  destruct (Dict.keys cur) as [|k0 ks]; simpl; [discriminate|].
  destruct (Dict.get cur k0) as [e|first] eqn:Eg; simpl.
  - rewrite (get_not_other_exn _ _ _ Eg). discriminate.
  - destruct (table_rows cur (Dict.keys first)) as [e|rows] eqn:Et; simpl.
    + intros H. injection H as ->. now apply (table_rows_exn _ _ _ Et).
    + discriminate.
Qed.

(** C10.  The division is not guarded.  On a table whose entries all hold
    a precision and a recall, [metrics_to_table] raises
    [ZeroDivisionError] exactly when some entry has [4*p + r = 0]; so it
    does on any entry with precision 0 and recall 0, and no table is
    returned. *)
Theorem metrics_to_table_division_unguarded (metrics : metrics_t) :
  (forall k, In k (Dict.keys metrics) ->
             exists p r, has_scores metrics k p r) ->
  (snd (metrics_to_table metrics) = inl ZeroDivisionError
   <-> exists k p r, has_scores metrics k p r /\ 4 * p + r == 0)
  /\ (forall k p r,
         has_scores metrics k p r -> p == 0 -> r == 0 ->
         snd (metrics_to_table metrics) = inl ZeroDivisionError).
Proof.
  intros Hall.
  assert (Hiff : snd (metrics_to_table metrics) = inl ZeroDivisionError
                 <-> exists k p r, has_scores metrics k p r /\ 4 * p + r == 0).
  { destruct (F2_loop_spec metrics (Dict.keys metrics) metrics []
                (loop_inv_init metrics) Hall)
      as [(cur' & Hl & _ & Hnz)
         |(cur' & Hl & _ & k & p & r & Hin & Hs & Hz)].
    - split.
      + intros H. now apply (metrics_to_table_after_loop _ _ Hl) in H.
      + intros (k & p & r & Hs & Hz). exfalso.
        apply (Hnz k p r); [|exact Hs|exact Hz].
        destruct Hs as (e & He & _). exact (get_in_keys _ _ _ He).
    - split.
      + intros _. now exists k, p, r.
      + intros _. unfold metrics_to_table. now rewrite Hl. }
  split; [exact Hiff|].
  intros k p r Hs Hp Hr. apply Hiff. exists k, p, r. split; [exact Hs|].
  rewrite Hp, Hr. reflexivity.
Qed.

Lemma metrics_to_table_division_unguarded_witness :
  snd (metrics_to_table
         [("experiments/a", [("precision", 8 # 10); ("recall", 5 # 10)]);
          ("experiments/b", [("precision", 0); ("recall", 0)])])
  = inl ZeroDivisionError.
Proof.
  apply (metrics_to_table_division_unguarded
           [("experiments/a", [("precision", 8 # 10); ("recall", 5 # 10)]);
            ("experiments/b", [("precision", 0); ("recall", 0)])])
    with (k := "experiments/b") (p := 0) (r := 0).
  - intros k [<-|[<-|[]]]; [exists (8 # 10), (5 # 10) | exists 0, 0];
      eexists; repeat split; reflexivity.
  - eexists; repeat split; reflexivity.
  - reflexivity.
  - reflexivity.
Defined.

End Metrics.

(* ====================================================================== *)
(** * Properties of the training start-up *)

Section Labels.

Import Train.

Lemma mem_In (label : string) (l : list string) :
  mem label l = true <-> In label l.
Proof.
  unfold mem. rewrite existsb_exists. split.
  - intros (x & Hx & E). apply String.eqb_eq in E. now subst.
  - intros H. exists label. split; [exact H | apply String.eqb_refl].
Qed.

(** Appending the labels not yet seen: the list gains exactly the new
    labels and stays duplicate-free. *)
Lemma push_new_spec (labels : list string) :
  forall acc : list string,
    let acc' :=
      fold_left
        (fun acc label => if mem label acc then acc else (acc ++ [label])%list)
        labels acc in
    (forall x, In x acc' <-> In x acc \/ In x labels)
    /\ (NoDup acc -> NoDup acc').
Proof.
  induction labels as [|label labels IH]; intros acc; simpl.
  - split; [intros x; tauto | trivial].
  - destruct (mem label acc) eqn:Em.
    + apply mem_In in Em. destruct (IH acc) as [Hin Hnd]. split.
      * intros x. rewrite Hin. split; [tauto|].
        intros [H|[<-|H]]; tauto.
      * exact Hnd.
    + assert (Hn : ~ In label acc)
        by (intros H; apply mem_In in H; congruence).
      destruct (IH (acc ++ [label])%list) as [Hin Hnd]. split.
      * intros x. rewrite Hin, in_app_iff. simpl. tauto.
      * intros Hacc. apply Hnd. apply NoDup_app; [exact Hacc | | ].
        -- constructor; [intros [] | constructor].
        -- intros y Hy [<-|[]]. contradiction.
Qed.

(** [unique_labels] lists, without repetition, the labels that occur in
    some tag string. *)
Lemma unique_labels_spec (tags : list string) :
  NoDup (unique_labels tags)
  /\ forall x,
      In x (unique_labels tags)
      <-> exists tag_str, In tag_str tags /\ In x (split " "%char tag_str).
Proof.
  unfold unique_labels.
  assert (G : forall acc,
             NoDup acc ->
             NoDup (fold_left add_labels tags acc)
             /\ forall x,
                 In x (fold_left add_labels tags acc)
                 <-> In x acc
                     \/ exists tag_str,
                         In tag_str tags /\ In x (split " "%char tag_str)).
  { induction tags as [|t tags IH]; intros acc Hacc; simpl.
    - split; [exact Hacc|]. intros x. split; [tauto|].
      intros [H|(t & [] & _)]. exact H.
    - destruct (push_new_spec (split " "%char t) acc) as [Hin Hnd].
      destruct (IH (add_labels acc t) (Hnd Hacc)) as [Hnd' Hin'].
      split; [exact Hnd'|]. intros x. rewrite Hin'. unfold add_labels.
      rewrite Hin. split.
      + intros [[H|H]|(t' & Ht' & H)].
        * now left.
        * right. exists t. split; [now left | exact H].
        * right. exists t'. split; [now right | exact H].
      + intros [H|(t' & [<-|Ht'] & H)].
        * left. now left.
        * left. now right.
        * right. now exists t'. }
  destruct (G [] (NoDup_nil _)) as [Hnd Hin]. split; [exact Hnd|].
  intros x. rewrite Hin. split; [intros [[]|H]; exact H | now right].
Qed.

(** C8, as the code has it.  Start-up stops with an [AssertionError]
    whenever the train split and the dev split give different numbers of
    distinct labels. *)
Theorem main_startup_label_count_check (env : Env) :
  List.length (unique_labels (train_tags env))
  <> List.length (unique_labels (eval_tags env)) ->
  exists msg, main_startup env = inl (AssertionError msg).
Proof.
  intros Hne. unfold main_startup.
  destruct (json_path_isfile env); simpl; [|eexists; reflexivity].
  destruct (model_dir_has_best_weights env && _); [eexists; reflexivity|].
  destruct (Nat.eqb_spec (List.length (unique_labels (train_tags env)))
              (List.length (unique_labels (eval_tags env)))) as [E|_].
  - contradiction.
  - eexists; reflexivity.
Qed.

Lemma main_startup_label_count_check_witness :
  exists msg,
    main_startup
      (mkEnv "experiments/base_model/params.json" true false None
         ["clear primary"; "haze primary water"] ["clear primary"])
    = inl (AssertionError msg).
Proof.
  apply (main_startup_label_count_check
           (mkEnv "experiments/base_model/params.json" true false None
              ["clear primary"; "haze primary water"] ["clear primary"])).
  vm_compute. lia.
Defined.

(** C8 as it is written fails: two splits with different label sets of
    the same size pass the check, and start-up goes on. *)
Lemma main_startup_label_set_counterexample :
  ~ (~ same_labels (unique_labels ["clear primary"])
         (unique_labels ["clear water"]) ->
     exists e,
       main_startup
         (mkEnv "experiments/base_model/params.json" true false None
            ["clear primary"] ["clear water"])
       = inl e).
Proof.
  intros H. destruct H as [e He].
  - intros Hsame. destruct (Hsame "primary") as [Hin _].
    assert (In "primary" (unique_labels ["clear water"])) as Hbad
      by (apply Hin; vm_compute; tauto).
    vm_compute in Hbad. destruct Hbad as [E|[E|[]]]; discriminate E.
  - vm_compute in He. discriminate He.
Qed.

End Labels.

(* ====================================================================== *)
(** * Further properties of the residual-network construction *)

Section Padding.

Import Tf Resnet2.

(** For a kernel size of at least 1, [fixed_padding] pads the two spatial
    axes only, by amounts that depend on the kernel size alone: they are
    not negative, they add up to [kernel_size - 1], and the trailing
    amount is the leading one or one more.  Each spatial axis of the input
    grows by [kernel_size - 1], whatever its length; a kernel size of 1
    leaves the shape as it is. *)
Theorem fixed_padding_amounts (x : tensor) (kernel_size : Z) :
  1 <= kernel_size ->
  exists pad_beg pad_end,
    fixed_padding x kernel_size
    = pad x [(0, 0); (pad_beg, pad_end); (pad_beg, pad_end); (0, 0)]
    /\ 0 <= pad_beg
    /\ pad_beg + pad_end = kernel_size - 1
    /\ pad_beg <= pad_end <= pad_beg + 1
    /\ (forall b c H W,
           get_shape x = Some [b; Some H; Some W; c] ->
           get_shape (fixed_padding x kernel_size)
           = Some [b; Some (H + (kernel_size - 1));
                   Some (W + (kernel_size - 1)); c])
    /\ (kernel_size = 1 ->
        forall b h w c,
          get_shape x = Some [b; h; w; c] ->
          get_shape (fixed_padding x kernel_size) = Some [b; h; w; c]).
Proof.
  intros Hk.
  exists ((kernel_size - 1) / 2),
         (kernel_size - 1 - (kernel_size - 1) / 2).
  split; [reflexivity|].
  pose proof (Z.div_mod (kernel_size - 1) 2 ltac:(lia)) as Hd.
  pose proof (Z.mod_pos_bound (kernel_size - 1) 2 ltac:(lia)) as Hm.
  split; [lia|]. split; [lia|]. split; [lia|]. split.
  - intros b c H W Hx. unfold fixed_padding. cbv zeta.
    cbn [get_shape]. rewrite Hx.
    rewrite pad_shape_spatial by lia.
    rewrite !pad_dim_Some. cbn [fst snd].
    replace ((kernel_size - 1) / 2
             + (kernel_size - 1 - (kernel_size - 1) / 2))
      with (kernel_size - 1) by lia.
    reflexivity.
  - intros -> b h w c Hx. unfold fixed_padding. cbv zeta.
    cbn [get_shape]. rewrite Hx. change ((1 - 1) / 2) with 0.
    change (1 - 1 - 0) with 0.
    rewrite pad_shape_spatial by lia. now rewrite !pad_dim_0.
Qed.

Lemma fixed_padding_amounts_witness :
  get_shape (fixed_padding (placeholder [None; Some 5; Some 9; Some 3]) 4)
  = Some [None; Some (5 + (4 - 1)); Some (9 + (4 - 1)); Some 3].
Proof.
  destruct (fixed_padding_amounts
              (placeholder [None; Some 5; Some 9; Some 3]) 4 ltac:(lia))
    as (pad_beg & pad_end & _ & _ & _ & _ & Hshape & _).
  apply Hshape. reflexivity.
Defined.

End Padding.

Section BlockShapes.

Import Tf Resnet2.

Lemma ceil_div_bounds (h s : Z) :
  1 <= h -> 1 <= s -> 1 <= ceil_div h s <= h.
Proof.
  intros Hh Hs. rewrite ceil_div_floor by lia.
  pose proof (Z.div_pos (h - 1) s ltac:(lia) ltac:(lia)).
  assert ((h - 1) / s <= h - 1)
    by (apply Z.div_le_upper_bound; [lia | nia]).
  lia.
Qed.

Lemma dim_eqb_refl (d : dim) : dim_eqb d d = true.
Proof.
  destruct d as [n|]; simpl; [apply Z.eqb_refl | reflexivity].
Qed.

(** The static shape of [conv2d_fixed_padding] for any stride [s >= 1]. *)
Lemma conv_shape (x : tensor) (b c : dim) (H W f k s : Z) (wd : Q) :
  get_shape x = Some [b; Some H; Some W; c] ->
  1 <= H -> 1 <= W -> 1 <= k -> 1 <= s ->
  get_shape (conv2d_fixed_padding x f k s wd)
  = Some [b; Some (ceil_div H s); Some (ceil_div W s); Some f].
Proof.
  intros Hx HH HW Hk Hs. unfold conv2d_fixed_padding.
  destruct (Z.eqb_spec s 1) as [->|Hne].
  - simpl. rewrite Hx. reflexivity.
  - destruct (Z.gtb_spec s 1) as [_|]; [|lia].
    unfold fixed_padding. cbv zeta.
    cbn [get_shape]. rewrite Hx.
    rewrite pad_shape_spatial by (apply fixed_padding_nonneg; lia).
    cbn [window_shape].
    pose proof (Z.div_mod (k - 1) 2 ltac:(lia)).
    rewrite !window_out_padded by (cbn [fst snd]; lia).
    rewrite !ceil_div_floor by lia.
    replace (H + (k - 1) - k) with (H - 1) by lia.
    replace (W + (k - 1) - k) with (W - 1) by lia.
    reflexivity.
Qed.

Lemma broadcast_dim_same (d : dim) : broadcast_dim d d = Some d.
Proof.
  destruct d as [n|]; simpl; [|reflexivity].
  destruct (n =? 1) eqn:E; [reflexivity|]. now rewrite Z.eqb_refl.
Qed.

Lemma broadcast_dim_eq (c1 c2 : Z) :
  c1 = c2 -> broadcast_dim (Some c1) (Some c2) = Some (Some c1).
Proof.
  intros <-. apply broadcast_dim_same.
Qed.

(** The static shape of the sum of two four-dimensional operands that
    agree outside the channel axis: the channel axes are broadcast. *)
Lemma add_shape (x y : tensor) (b h w : dim) (c1 : Z) (c2 : dim) :
  get_shape x = Some [b; h; w; Some c1] ->
  get_shape y = Some [b; h; w; c2] ->
  get_shape (add x y)
  = match broadcast_dim (Some c1) c2 with
    | Some ch => Some [b; h; w; ch]
    | None => None
    end.
Proof.
  intros Hx Hy. cbn [get_shape]. rewrite Hx, Hy.
  unfold broadcast_shape. cbn [List.length Nat.max Nat.sub repeat app].
  cbn [broadcast_axes]. rewrite !broadcast_dim_same.
  now destruct (broadcast_dim (Some c1) c2).
Qed.

Lemma conv_shape_1 (x : tensor) (b c : dim) (H W f k : Z) (wd : Q) :
  get_shape x = Some [b; Some H; Some W; c] ->
  1 <= H -> 1 <= W -> 1 <= k ->
  get_shape (conv2d_fixed_padding x f k 1 wd)
  = Some [b; Some H; Some W; Some f].
Proof.
  intros Hx HH HW Hk.
  rewrite (conv_shape x b c H W f k 1 wd Hx HH HW Hk ltac:(lia)).
  now rewrite !ceil_div_1.
Qed.

Lemma relu_shape (t : tensor) : get_shape (nn_relu t) = get_shape t.
Proof.
  reflexivity.
Qed.

Lemma bn_shape (t : tensor) (training : bool) :
  get_shape (batch_norm t training) = get_shape t.
Proof.
  reflexivity.
Qed.

(** Shapes of chains of convolution, normalization and activation. *)
Ltac chain_shape :=
  lazymatch goal with
  | |- get_shape (nn_relu _) = _ => rewrite relu_shape; chain_shape
  | |- get_shape (batch_norm _ _) = _ => rewrite bn_shape; chain_shape
  | |- get_shape (conv2d_fixed_padding _ _ _ 1 _) = _ =>
      eapply conv_shape_1; [chain_shape | lia | lia | lia]
  | |- get_shape (conv2d_fixed_padding _ _ _ _ _) = _ =>
      eapply conv_shape; [chain_shape | lia | lia | lia | lia]
  | |- get_shape (projection_shortcut _ _ _ _) = _ =>
      unfold projection_shortcut; chain_shape
  | _ => eassumption
  end.

Section ProjectedBlocks.

Variables (x : tensor) (b c : dim) (H W filters strides : Z).
Variables (training : bool) (weight_decay : Q).
Hypothesis Hx : get_shape x = Some [b; Some H; Some W; c].
Hypothesis HH : 1 <= H.
Hypothesis HW : 1 <= W.
Hypothesis Hs : 1 <= strides.


(** With the projection of [block_layer] to [filters * 4] channels, both
    bottleneck blocks are well shaped, and their output has [4 * filters]
    channels whatever the number of input channels. *)
Theorem bottleneck_blocks_projected_shape :
  get_shape
    (_bottleneck_block_v1 x filters training
       (Some (projection_shortcut (filters * 4) strides)) strides
       weight_decay)
  = Some [b; Some (ceil_div H strides); Some (ceil_div W strides);
          Some (4 * filters)]
  /\ get_shape
       (_bottleneck_block_v2 x filters training
          (Some (projection_shortcut (filters * 4) strides)) strides
          weight_decay)
     = Some [b; Some (ceil_div H strides); Some (ceil_div W strides);
             Some (4 * filters)].
Proof.
  pose proof (ceil_div_bounds H strides HH Hs) as BH.
  pose proof (ceil_div_bounds W strides HW Hs) as BW.
  assert (E : broadcast_dim (Some (4 * filters)) (Some (filters * 4))
              = Some (Some (4 * filters)))
    by (apply broadcast_dim_eq; lia).
  split.
  - unfold _bottleneck_block_v1. cbv zeta. rewrite relu_shape.
    erewrite add_shape with (c2 := Some (filters * 4));
      [now rewrite E | chain_shape | chain_shape].
  - unfold _bottleneck_block_v2. cbv zeta.
    erewrite add_shape with (c2 := Some (filters * 4));
      [now rewrite E | chain_shape | chain_shape].
Qed.

(** Without a projection and with stride 1, the sum of a block joins the
    main path ([filters] channels for a basic block, [4 * filters] for a
    bottleneck block) with the raw input, and the channel axes are
    broadcast: an input with as many channels as the main path keeps its
    shape, an input with 1 channel is stretched to the channels of the
    main path, and channel counts that differ and are both other than 1
    are refused. *)
Theorem identity_blocks_shape :
  let joined := fun out : Z =>
    match broadcast_dim (Some out) c with
    | Some ch => Some [b; Some H; Some W; ch]
    | None => None
    end in
  get_shape (_building_block_v1 x filters training None 1 weight_decay)
  = joined filters
  /\ get_shape (_building_block_v2 x filters training None 1 weight_decay)
     = joined filters
  /\ get_shape (_bottleneck_block_v1 x filters training None 1 weight_decay)
     = joined (4 * filters)
  /\ get_shape (_bottleneck_block_v2 x filters training None 1 weight_decay)
     = joined (4 * filters)
  /\ (forall out,
         (c = Some out -> joined out = Some [b; Some H; Some W; Some out])
         /\ (c = Some 1 -> joined out = Some [b; Some H; Some W; Some out])
         /\ (forall n, c = Some n -> n <> out -> n <> 1 -> out <> 1 ->
                       joined out = None)).
Proof.
  cbv zeta. repeat apply conj.
  - unfold _building_block_v1. cbv zeta. rewrite relu_shape.
    apply add_shape; chain_shape.
  - unfold _building_block_v2. cbv zeta. apply add_shape; chain_shape.
  - unfold _bottleneck_block_v1. cbv zeta. rewrite relu_shape.
    apply add_shape; chain_shape.
  - unfold _bottleneck_block_v2. cbv zeta. apply add_shape; chain_shape.
  - intros out. repeat apply conj.
    + intros E. rewrite E. now rewrite broadcast_dim_same.
    + intros E. rewrite E. simpl.
      destruct (Z.eqb_spec out 1) as [->|_]; reflexivity.
    + intros n E Hn H1 Ho. rewrite E. simpl.
      destruct (Z.eqb_spec out 1); [contradiction|].
      destruct (Z.eqb_spec n 1); [contradiction|].
      destruct (Z.eqb_spec out n); [now subst | reflexivity].
Qed.

End ProjectedBlocks.


Lemma bottleneck_blocks_projected_shape_witness :
  get_shape
    (_bottleneck_block_v1 (placeholder [None; Some 7; Some 9; Some 3]) 16
       false (Some (projection_shortcut (16 * 4) 2)) 2 (1 # 1000))
  = Some [None; Some (ceil_div 7 2); Some (ceil_div 9 2); Some (4 * 16)].
Proof.
  apply (bottleneck_blocks_projected_shape
           (placeholder [None; Some 7; Some 9; Some 3]) None (Some 3) 7 9 16
           2 false (1 # 1000));
    [reflexivity | lia | lia | lia].
Defined.

Lemma identity_blocks_shape_witness :
  get_shape
    (_building_block_v2 (placeholder [None; Some 7; Some 9; Some 1]) 16 true
       None 1 (1 # 1000))
  = Some [None; Some 7; Some 9; Some 16]
  /\ get_shape
       (_building_block_v2 (placeholder [None; Some 7; Some 9; Some 3]) 16
          true None 1 (1 # 1000))
     = None.
Proof.
  split.
  - apply (identity_blocks_shape
             (placeholder [None; Some 7; Some 9; Some 1]) None (Some 1) 7 9 16
             true (1 # 1000));
      [reflexivity | lia | lia].
  - apply (identity_blocks_shape
             (placeholder [None; Some 7; Some 9; Some 3]) None (Some 3) 7 9 16
             true (1 # 1000));
      [reflexivity | lia | lia].
Defined.

(** [Model.__init__] stores its arguments and a block function that fits
    the bottleneck flag. *)
Lemma init_block_fn_cases
    (bottleneck : bool) (num_classes num_filters kernel_size conv_stride : Z)
    (first_pool_size first_pool_stride : option Z)
    (second_pool_size second_pool_stride : Z)
    (block_sizes block_strides : list Z) (final_size version : Z)
    (weight_decay : Q) (m : Model) :
  Model__init__ bottleneck num_classes num_filters kernel_size conv_stride
    first_pool_size first_pool_stride second_pool_size second_pool_stride
    block_sizes block_strides final_size version weight_decay = inr m ->
  m = mkModel version bottleneck (block_fn m) num_classes num_filters
        kernel_size conv_stride first_pool_size first_pool_stride
        second_pool_size second_pool_stride block_sizes block_strides
        final_size weight_decay
  /\ fits bottleneck (block_fn m).
Proof.
  unfold Model__init__, fits.
  destruct (negb _); [discriminate|].
  intros E. injection E as <-. split; [reflexivity|]. simpl.
  destruct bottleneck, (version =? 1); auto.
Qed.

Lemma iter_shape (n : nat) (next : tensor -> tensor) (y : tensor)
    (sh : shape) :
  get_shape y = Some sh ->
  (forall z, get_shape z = Some sh -> get_shape (next z) = Some sh) ->
  get_shape (Nat.iter n next y) = Some sh.
Proof.
  intros Hy Hnext. induction n as [|n IH]; simpl; [exact Hy | now apply Hnext].
Qed.

(** The first block of a stage, for a block function that fits the
    flag. *)
Lemma first_block_shape (x : tensor) (b c : dim) (H W filters strides : Z)
    (bottleneck : bool) (block_fn : block_fn_t) (training : bool) (wd : Q) :
  fits bottleneck block_fn ->
  get_shape x = Some [b; Some H; Some W; c] ->
  1 <= H -> 1 <= W -> 1 <= strides ->
  get_shape
    (block_fn x filters training
       (Some (projection_shortcut
                (if bottleneck then filters * 4 else filters) strides))
       strides wd)
  = Some [b; Some (ceil_div H strides); Some (ceil_div W strides);
          Some (if bottleneck then 4 * filters else filters)].
Proof.
  intros Hfit Hx HH HW Hs.
  pose proof (ceil_div_bounds H strides HH Hs) as BH.
  pose proof (ceil_div_bounds W strides HW Hs) as BW.
  assert (E : broadcast_dim (Some (4 * filters)) (Some (filters * 4))
              = Some (Some (4 * filters)))
    by (apply broadcast_dim_eq; lia).
  unfold fits in Hfit. destruct bottleneck, Hfit as [-> | ->].
  - unfold _bottleneck_block_v1. cbv zeta. rewrite relu_shape.
    erewrite add_shape with (c2 := Some (filters * 4));
      [now rewrite E | chain_shape | chain_shape].
  - unfold _bottleneck_block_v2. cbv zeta.
    erewrite add_shape with (c2 := Some (filters * 4));
      [now rewrite E | chain_shape | chain_shape].
  - unfold _building_block_v1. cbv zeta. rewrite relu_shape.
    erewrite add_shape with (c2 := Some filters);
      [now rewrite broadcast_dim_same | chain_shape | chain_shape].
  - unfold _building_block_v2. cbv zeta.
    erewrite add_shape with (c2 := Some filters);
      [now rewrite broadcast_dim_same | chain_shape | chain_shape].
Qed.

(** A later block of the stage, on the output of the one before. *)
Lemma next_block_shape (x : tensor) (b : dim) (H W filters : Z)
    (bottleneck : bool) (block_fn : block_fn_t) (training : bool) (wd : Q) :
  fits bottleneck block_fn ->
  get_shape x
  = Some [b; Some H; Some W;
          Some (if bottleneck then 4 * filters else filters)] ->
  1 <= H -> 1 <= W ->
  get_shape (block_fn x filters training None 1 wd)
  = Some [b; Some H; Some W;
          Some (if bottleneck then 4 * filters else filters)].
Proof.
  intros Hfit Hx HH HW.
  unfold fits in Hfit. destruct bottleneck, Hfit as [-> | ->].
  - unfold _bottleneck_block_v1. cbv zeta. rewrite relu_shape.
    erewrite add_shape with (c2 := Some (4 * filters));
      [now rewrite broadcast_dim_same | chain_shape | chain_shape].
  - unfold _bottleneck_block_v2. cbv zeta.
    erewrite add_shape with (c2 := Some (4 * filters));
      [now rewrite broadcast_dim_same | chain_shape | chain_shape].
  - unfold _building_block_v1. cbv zeta. rewrite relu_shape.
    erewrite add_shape with (c2 := Some filters);
      [now rewrite broadcast_dim_same | chain_shape | chain_shape].
  - unfold _building_block_v2. cbv zeta.
    erewrite add_shape with (c2 := Some filters);
      [now rewrite broadcast_dim_same | chain_shape | chain_shape].
Qed.

(** The shape of a stage, whatever its number of blocks. *)
Lemma stage_shape (x : tensor) (b c : dim) (H W filters n strides : Z)
    (bottleneck : bool) (block_fn : block_fn_t) (training : bool)
    (name : string) (wd : Q) :
  fits bottleneck block_fn ->
  get_shape x = Some [b; Some H; Some W; c] ->
  1 <= H -> 1 <= W -> 1 <= strides ->
  get_shape
    (block_layer x filters bottleneck block_fn n strides training name wd)
  = Some [b; Some (ceil_div H strides); Some (ceil_div W strides);
          Some (if bottleneck then 4 * filters else filters)].
Proof.
  intros Hfit Hx HH HW Hs.
  pose proof (ceil_div_bounds H strides HH Hs) as BH.
  pose proof (ceil_div_bounds W strides HW Hs) as BW.
  unfold block_layer. cbv zeta. cbn [get_shape].
  rewrite (fold_left_const_iter
             (fun z => block_fn z filters training None 1 wd)).
  apply iter_shape.
  - now apply first_block_shape with (c := c).
  - intros z Hz. apply next_block_shape; [exact Hfit | exact Hz | lia | lia].
Qed.

(** A stage built with a block function that [Model.__init__] selects for
    the bottleneck flag is well shaped for every number of blocks: its
    output has [4 * filters] channels (bottleneck) or [filters] channels
    (basic), and each spatial axis of the input divided by the stage's
    stride, rounding up. *)
Theorem block_layer_shape (x : tensor) (b c : dim)
    (H W filters n strides : Z) (bottleneck : bool) (block_fn : block_fn_t)
    (training : bool) (name : string) (wd : Q) :
  fits bottleneck block_fn ->
  get_shape x = Some [b; Some H; Some W; c] ->
  1 <= H -> 1 <= W -> 1 <= strides ->
  get_shape
    (block_layer x filters bottleneck block_fn n strides training name wd)
  = Some [b; Some (ceil_div H strides); Some (ceil_div W strides);
          Some (if bottleneck then 4 * filters else filters)].
Proof.
  intros Hfit Hx HH HW Hs.
  pose proof (ceil_div_bounds H strides HH Hs) as BH.
  pose proof (ceil_div_bounds W strides HW Hs) as BW.
  unfold block_layer. cbv zeta. cbn [get_shape].
  rewrite (fold_left_const_iter
             (fun z => block_fn z filters training None 1 wd)).
  apply iter_shape.
  - now apply first_block_shape with (c := c).
  - intros z Hz. apply next_block_shape; [exact Hfit | exact Hz | lia | lia].
Qed.

Lemma block_layer_shape_witness :
  get_shape
    (block_layer (placeholder [None; Some 16; Some 16; Some 8]) 16 true
       _bottleneck_block_v2 3 2 false "block_layer2" (1 # 1000))
  = Some [None; Some (ceil_div 16 2); Some (ceil_div 16 2); Some (4 * 16)].
Proof.
  apply (block_layer_shape (placeholder [None; Some 16; Some 16; Some 8])
           None (Some 8) 16 16 16 3 2 true _bottleneck_block_v2 false
           "block_layer2" (1 # 1000));
    [right; reflexivity | reflexivity | lia | lia | lia].
Defined.

(** A block count of 1, of 0 or below 0 builds exactly one block: the
    stage is the first block alone, with the projection and the stride. *)
Theorem block_layer_at_most_one_block
    (x : tensor) (filters n strides : Z) (bottleneck : bool)
    (block_fn : block_fn_t) (training : bool) (name : string) (wd : Q) :
  n <= 1 ->
  block_layer x filters bottleneck block_fn n strides training name wd
  = identity
      (block_fn x filters training
         (Some (projection_shortcut
                  (if bottleneck then filters * 4 else filters) strides))
         strides wd)
      name.
Proof.
  intros Hn. unfold block_layer, range.
  replace (Z.to_nat (n - 1)) with 0%nat by lia. reflexivity.
Qed.

Lemma block_layer_at_most_one_block_witness :
  block_layer (placeholder [None; Some 16; Some 16; Some 8]) 16 false
    _building_block_v1 0 2 true "block_layer1" (1 # 1000)
  = identity
      (_building_block_v1 (placeholder [None; Some 16; Some 16; Some 8]) 16
         true (Some (projection_shortcut 16 2)) 2 (1 # 1000))
      "block_layer1".
Proof.
  apply (block_layer_at_most_one_block
           (placeholder [None; Some 16; Some 16; Some 8]) 16 0 2 false
           _building_block_v1 true "block_layer1" (1 # 1000)).
  lia.
Defined.

Lemma skipn_nth_error {A : Type} (l : list A) :
  forall (i : nat) (a : A),
    nth_error l i = Some a -> skipn i l = a :: skipn (S i) l.
Proof.
  induction l as [|x l IH]; intros [|i] a E; simpl in *; try discriminate.
  - now injection E as ->.
  - now apply IH.
Qed.

(** The stage loop on a well-shaped input, when every stage has a stride
    of at least 1: it returns, and each stage divides the spatial axes by
    its stride, rounding up. *)
Lemma block_layers_shape (self : Model) (training : bool) (b : dim)
    (sizes : list Z) :
  fits (bottleneck self) (block_fn self) ->
  Forall (fun s => 1 <= s) (block_strides self) ->
  forall (i : nat) (x : tensor) (h w : Z) (c : dim),
    get_shape x = Some [b; Some h; Some w; c] ->
    1 <= h -> 1 <= w ->
    (i + List.length sizes <= List.length (block_strides self))%nat ->
    exists t c',
      block_layers self training i sizes x = inr t
      /\ get_shape t
         = Some [b;
                 Some (fold_left ceil_div
                         (firstn (List.length sizes)
                            (skipn i (block_strides self))) h);
                 Some (fold_left ceil_div
                         (firstn (List.length sizes)
                            (skipn i (block_strides self))) w);
                 c']
      /\ 1 <= fold_left ceil_div
                (firstn (List.length sizes) (skipn i (block_strides self))) h
      /\ 1 <= fold_left ceil_div
                (firstn (List.length sizes) (skipn i (block_strides self))) w.
Proof.
  intros Hfit Hstr. induction sizes as [|n sizes IH];
    intros i x h w c Hx Hh Hw Hlen.
  - exists x, c. simpl. repeat split; assumption.
  - cbn [block_layers].
    destruct (nth_error (block_strides self) i) as [s|] eqn:Es;
      [|apply nth_error_None in Es; simpl in Hlen; lia].
    assert (Hs : 1 <= s).
    { rewrite Forall_forall in Hstr. apply Hstr.
      eapply nth_error_In, Es. }
    rewrite (skipn_nth_error _ _ _ Es). cbn [List.length firstn fold_left].
    pose proof (ceil_div_bounds h s Hh Hs).
    pose proof (ceil_div_bounds w s Hw Hs).
    eapply IH; [|lia|lia|simpl in Hlen; lia].
    apply stage_shape with (c := c); assumption.
Qed.

(** The stage loop reads the strides of its own stages only. *)
Lemma block_layers_strides_prefix (self : Model) (training : bool)
    (strides extra : list Z) (sizes : list Z) :
  forall (i : nat) (x : tensor),
    (i + List.length sizes <= List.length strides)%nat ->
    block_layers (with_block_strides (strides ++ extra) self) training i
      sizes x
    = block_layers (with_block_strides strides self) training i sizes x.
Proof.
  induction sizes as [|n sizes IH]; intros i x Hlen; simpl in *.
  - reflexivity.
  - rewrite nth_error_app1 by lia.
    destruct (nth_error strides i) as [s|]; [|reflexivity].
    apply IH. lia.
Qed.

(** Strides listed in [block_strides] beyond the number of stages are
    never read: the graph is the one built without them. *)
Theorem Model_call_ignores_surplus_strides
    (self : Model) (strides extra : list Z) (inputs : tensor)
    (training : bool) :
  (List.length (block_sizes self) <= List.length strides)%nat ->
  Model__call__ (with_block_strides (strides ++ extra) self) inputs training
  = Model__call__ (with_block_strides strides self) inputs training.
Proof.
  intros Hlen. unfold Model__call__.
  cbn [with_block_strides num_filters kernel_size conv_stride weight_decay
       first_pool_size first_pool_stride block_sizes second_pool_size
       second_pool_stride num_classes].
  rewrite block_layers_strides_prefix by (simpl; lia). reflexivity.
Qed.

Lemma Model_call_ignores_surplus_strides_witness :
  Model__call__
    (with_block_strides ([1; 2] ++ [7; 0])
       (mkModel 2 false _building_block_v2 17 8 3 1 None None 8 1 [2; 2] []
          17 (1 # 1000)))
    (placeholder [None; Some 32; Some 32; Some 3]) false
  = Model__call__
      (with_block_strides [1; 2]
         (mkModel 2 false _building_block_v2 17 8 3 1 None None 8 1 [2; 2] []
            17 (1 # 1000)))
      (placeholder [None; Some 32; Some 32; Some 3]) false.
Proof.
  apply (Model_call_ignores_surplus_strides
           (mkModel 2 false _building_block_v2 17 8 3 1 None None 8 1 [2; 2]
              [] 17 (1 # 1000))
           [1; 2] [7; 0] (placeholder [None; Some 32; Some 32; Some 3])
           false).
  simpl. lia.
Defined.

(** End to end.  For a model whose block function fits its bottleneck
    flag (as [Model.__init__] sets it), on a batch of spatial size
    [H x W], with kernel size, strides and pool sizes of at least 1, a
    stride for every stage, and a final pooling window that fits what the
    stages leave, [Model.__call__] returns and its output has the static
    shape [[batch, num_classes]]. *)
Theorem Model_call_logits_shape
    (self : Model) (x : tensor) (training : bool) (b c : dim) (H W : Z) :
  fits (bottleneck self) (block_fn self) ->
  get_shape x = Some [b; Some H; Some W; c] ->
  1 <= H -> 1 <= W ->
  1 <= kernel_size self -> 1 <= conv_stride self ->
  (forall k, first_pool_size self = Some k -> k <> 0 ->
             1 <= k /\ exists s, first_pool_stride self = Some s /\ 1 <= s) ->
  Forall (fun s => 1 <= s) (block_strides self) ->
  (List.length (block_sizes self) <= List.length (block_strides self))%nat ->
  1 <= second_pool_size self -> 1 <= second_pool_stride self ->
  second_pool_size self <= spatial_out self H ->
  second_pool_size self <= spatial_out self W ->
  exists logits,
    Model__call__ self x training = inr logits
    /\ get_shape logits = Some [b; Some (num_classes self)].
Proof.
  intros Hfit Hx HH HW Hk Hcs Hpool Hstr Hlen Hps Hpst HpH HpW.
  unfold Model__call__. cbv zeta.
  pose proof (ceil_div_bounds H (conv_stride self) HH Hcs) as BH.
  pose proof (ceil_div_bounds W (conv_stride self) HW Hcs) as BW.
  pose proof (conv_shape x b c H W (num_filters self) (kernel_size self)
                (conv_stride self) (weight_decay self) Hx HH HW Hk Hcs)
    as Hconv.
  unfold spatial_out in HpH, HpW. cbv zeta in HpH, HpW.
  set (conv := conv2d_fixed_padding x (num_filters self) (kernel_size self)
                 (conv_stride self) (weight_decay self)) in *.
  assert (Hin : exists y h w c0,
             (if truthy (first_pool_size self)
              then identity
                     (layers_max_pooling2d (identity conv "initial_conv")
                        match first_pool_size self with
                        | Some n => n
                        | None => 0
                        end (first_pool_stride self) SAME)
                     "initial_max_pool"
              else identity conv "initial_conv") = y
             /\ get_shape y = Some [b; Some h; Some w; c0]
             /\ 1 <= h /\ 1 <= w
             /\ h = (if truthy (first_pool_size self)
                     then match first_pool_stride self with
                          | Some s => ceil_div (ceil_div H (conv_stride self)) s
                          | None => ceil_div H (conv_stride self)
                          end
                     else ceil_div H (conv_stride self))
             /\ w = (if truthy (first_pool_size self)
                     then match first_pool_stride self with
                          | Some s => ceil_div (ceil_div W (conv_stride self)) s
                          | None => ceil_div W (conv_stride self)
                          end
                     else ceil_div W (conv_stride self))).
  { destruct (truthy (first_pool_size self)) eqn:Et.
    - destruct (first_pool_size self) as [k|] eqn:Ek; [|discriminate].
      simpl in Et. apply negb_true_iff in Et.
      destruct (Hpool k eq_refl ltac:(intros ->; discriminate))
        as (Hk1 & s & Es & Hs).
      rewrite Es.
      pose proof (ceil_div_bounds _ s (proj1 BH) Hs).
      pose proof (ceil_div_bounds _ s (proj1 BW) Hs).
      eexists _, _, _, _. split; [reflexivity|].
      split; [cbn [get_shape]; rewrite Hconv; reflexivity|].
      repeat split; lia.
    - eexists _, _, _, _. split; [reflexivity|].
      split; [cbn [get_shape]; exact Hconv|]. repeat split; lia. }
  destruct Hin as (y & h & w & c0 & -> & Hy & Hh & Hw & Eh & Ew).
  rewrite <- Eh in HpH. rewrite <- Ew in HpW.
  destruct (block_layers_shape self training b (block_sizes self) Hfit Hstr
              0%nat y h w c0 Hy Hh Hw ltac:(simpl; lia))
    as (t & c' & Ht & Hsh & _ & _).
  cbn [skipn] in Hsh. rewrite Ht. cbn [bind].
  eexists. split; [reflexivity|].
  cbn [get_shape batch_norm]. rewrite Hsh. cbn [window_shape window_out].
  destruct (Z.ltb_spec
              (fold_left ceil_div
                 (firstn (List.length (block_sizes self)) (block_strides self))
                 h) (second_pool_size self)) as [Hlt|_]; [lia|].
  destruct (Z.ltb_spec
              (fold_left ceil_div
                 (firstn (List.length (block_sizes self)) (block_strides self))
                 w) (second_pool_size self)) as [Hlt|_]; [lia|].
  reflexivity.
Qed.

Lemma Model_call_logits_shape_witness :
  exists logits,
    Model__call__
      (mkModel 2 false _building_block_v2 17 8 3 1 None None 4 1 [2; 2]
         [1; 2] 17 (1 # 1000))
      (placeholder [Some 1; Some 32; Some 32; Some 3]) false
    = inr logits
    /\ get_shape logits = Some [Some 1; Some 17].
Proof.
  apply (Model_call_logits_shape
           (mkModel 2 false _building_block_v2 17 8 3 1 None None 4 1 [2; 2]
              [1; 2] 17 (1 # 1000))
           (placeholder [Some 1; Some 32; Some 32; Some 3]) false (Some 1)
           (Some 3) 32 32).
  - right. reflexivity.
  - reflexivity.
  - lia.
  - lia.
  - simpl. lia.
  - simpl. lia.
  - intros k E. discriminate E.
  - simpl. repeat constructor; lia.
  - simpl. lia.
  - simpl. lia.
  - simpl. lia.
  - vm_compute. discriminate.
  - vm_compute. discriminate.
Defined.

End BlockShapes.

Section BuildResnet.

Import Tf Resnet2.

Lemma dim_eqb_eq (d1 d2 : dim) : dim_eqb d1 d2 = true <-> d1 = d2.
Proof.
  destruct d1 as [n1|], d2 as [n2|]; simpl; split; intros E;
    try discriminate; try reflexivity.
  - apply Z.eqb_eq in E. now subst.
  - injection E as ->. apply Z.eqb_refl.
Qed.

Lemma shape_eqb_eq (s t : shape) : shape_eqb s t = true <-> s = t.
Proof.
  revert t. induction s as [|a s IH]; intros [|b t]; simpl;
    try (split; [discriminate | discriminate]); [tauto|].
  rewrite andb_true_iff, dim_eqb_eq, IH. split.
  - intros [-> ->]. reflexivity.
  - intros E. injection E as -> ->. now split.
Qed.

(** [build_resnet_] raises [AssertionError] exactly when the static shape
    of [inputs['images']] is not [[None, image_size, image_size, 3]]; so
    it does for a batch whose size is known, for another image size and
    for another number of channels.  The model is constructed before the
    check, and nothing of the graph is built when the check fails. *)
Theorem build_resnet_asserts_image_shape
    (is_training : bool) (inputs : Inputs) (params : Params) :
  let expected :=
    [None; Some (p_image_size params); Some (p_image_size params); Some 3] in
  ((exists msg,
       build_resnet_ is_training inputs params = inl (AssertionError msg))
   <-> get_shape (images inputs) <> Some expected)
  /\ (get_shape (images inputs) = Some expected ->
      exists m,
        build_resnet_Model params = inr m
        /\ build_resnet_ is_training inputs params
           = Model__call__ m (images inputs) is_training)
  /\ (forall n rest,
         get_shape (images inputs) = Some (Some n :: rest) ->
         build_resnet_ is_training inputs params = inl (AssertionError "")).
Proof.
  cbv zeta.
  assert (Em : exists m, build_resnet_Model params = inr m)
    by (eexists; reflexivity).
  destruct Em as [m Em]. unfold build_resnet_. rewrite Em. cbn [bind].
  set (expected :=
         [None; Some (p_image_size params); Some (p_image_size params);
          Some 3]).
  destruct (get_shape (images inputs)) as [sh|] eqn:Esh.
  - destruct (shape_eqb sh expected) eqn:Eq.
    + apply shape_eqb_eq in Eq. subst sh. split; [split|split].
      * intros [msg Hm]. exfalso. unfold Model__call__ in Hm.
        match type of Hm with
        | context [block_layers ?m ?tr 0 ?sizes ?x] =>
            destruct (block_layers_result m tr sizes 0 x) as [[t Ht]|Ht];
              rewrite Ht in Hm; discriminate Hm
        end.
      * intros Hne. now contradiction Hne.
      * intros _. exists m. split; reflexivity.
      * intros n rest E. discriminate E.
    + assert (Hne : Some sh <> Some expected).
      { intros E. injection E as ->.
        assert (shape_eqb expected expected = true) by now apply shape_eqb_eq.
        congruence. }
      split; [split|split].
      * intros _. exact Hne.
      * intros _. eexists. reflexivity.
      * intros E. now contradiction Hne.
      * intros n rest E. reflexivity.
  - split; [split|split].
    + intros _. discriminate.
    + intros _. eexists. reflexivity.
    + intros E. discriminate E.
    + intros n rest E. discriminate E.
Qed.

Lemma build_resnet_asserts_image_shape_witness :
  build_resnet_ true
    (mkInputs (placeholder [Some 1; Some 64; Some 64; Some 3]))
    (mkParams false 17 16 3 1 None None 4 1 [2; 2] [1; 2] (1 # 1000) 64 None
       [])
  = inl (AssertionError "").
Proof.
  apply (build_resnet_asserts_image_shape true
           (mkInputs (placeholder [Some 1; Some 64; Some 64; Some 3]))
           (mkParams false 17 16 3 1 None None 4 1 [2; 2] [1; 2] (1 # 1000)
              64 None []))
    with (n := 1) (rest := [Some 64; Some 64; Some 3]).
  reflexivity.
Defined.

End BuildResnet.

(* ====================================================================== *)
(** * Further properties of the metric aggregation *)

Section LoopByEntry.

Import SynthesizeResults.
Open Scope Q_scope.
Open Scope list_scope.

Lemma get_app_fresh {V : Type} (pre post : Dict.t V) (k : string) (v : V) :
  ~ In k (Dict.keys pre) ->
  Dict.get (pre ++ (k, v) :: post) k = ret v.
Proof.
  induction pre as [|[k1 v1] pre IH]; simpl; intros Hn.
  - now rewrite String.eqb_refl.
  - destruct (String.eqb_spec k k1) as [->|_]; [tauto|].
    apply IH. tauto.
Qed.

Lemma set_app_fresh {V : Type} (pre post : Dict.t V) (k : string)
    (v v' : V) :
  ~ In k (Dict.keys pre) ->
  Dict.set (pre ++ (k, v) :: post) k v' = pre ++ (k, v') :: post.
Proof.
  induction pre as [|[k1 v1] pre IH]; simpl; intros Hn.
  - now rewrite String.eqb_refl.
  - destruct (String.eqb_spec k k1) as [->|_]; [tauto|].
    f_equal. apply IH. tauto.
Qed.

(** One turn of the loop on a key that occurs once touches the entry of
    that key and nothing else. *)
Lemma F2_step_entry (pre post : metrics_t) (k : string) (e : entry) :
  ~ In k (Dict.keys pre) ->
  F2_step (pre ++ (k, e) :: post) k
  = match F2_entry e with
    | inl err => inl err
    | inr e' => inr (pre ++ (k, e') :: post)
    end.
Proof.
  intros Hn. unfold F2_step, F2_entry.
  rewrite (get_app_fresh pre post k e Hn). cbn [bind ret].
  destruct (Dict.get e "precision") as [err|p]; [reflexivity|]. cbn [bind].
  destruct (Dict.get e "recall") as [err|r]; [reflexivity|]. cbn [bind].
  destruct (truediv (5 * p * r) (4 * p + r)) as [err|f]; [reflexivity|].
  cbn [bind ret]. now rewrite set_app_fresh.
Qed.

Lemma F2_scan_keys (metrics : metrics_t) :
  Dict.keys (fst (F2_scan metrics)) = Dict.keys metrics.
Proof.
  induction metrics as [|[k e] rest IH]; simpl; [reflexivity|].
  destruct (F2_entry e) as [err|e']; [reflexivity|].
  destruct (F2_scan rest) as [rest' r]. simpl in *. now rewrite IH.
Qed.

Lemma F2_loop_scan (rest : metrics_t) :
  forall pre : metrics_t,
    NoDup (Dict.keys (pre ++ rest)) ->
    F2_loop (Dict.keys rest) (pre ++ rest)
    = (pre ++ fst (F2_scan rest), snd (F2_scan rest)).
Proof.
  induction rest as [|[k e] rest IH]; intros pre Hnd; simpl.
  - reflexivity.
  - assert (Hn : ~ In k (Dict.keys pre)).
    { unfold Dict.keys in *. rewrite map_app in Hnd. simpl in Hnd.
      apply NoDup_remove_2 in Hnd. rewrite in_app_iff in Hnd. tauto. }
    rewrite (F2_step_entry pre rest k e Hn).
    destruct (F2_entry e) as [err|e']; [reflexivity|].
    replace (pre ++ (k, e') :: rest) with ((pre ++ [(k, e')]) ++ rest)
      by (now rewrite <- app_assoc).
    rewrite IH.
    + destruct (F2_scan rest) as [rest' r]. simpl.
      now rewrite <- app_assoc.
    + unfold Dict.keys in *. rewrite <- app_assoc, map_app in *. exact Hnd.
Qed.

(** On a dictionary (distinct keys), the loop of [metrics_to_table] works
    entry by entry, in the order of the dictionary: each entry gets its F2
    until one raises (a missing [precision] or [recall], a zero divisor);
    that entry and all later ones are left as they were, the earlier ones
    keep their new F2, and the exception leaves [metrics_to_table]. *)
Theorem metrics_to_table_entry_by_entry (metrics : metrics_t) :
  Dict.wf metrics ->
  F2_loop (Dict.keys metrics) metrics = F2_scan metrics
  /\ fst (metrics_to_table metrics) = fst (F2_scan metrics)
  /\ (forall err,
         snd (F2_scan metrics) = inl err ->
         metrics_to_table metrics = (fst (F2_scan metrics), inl err)).
Proof.
  intros Hwf.
  assert (E : F2_loop (Dict.keys metrics) metrics = F2_scan metrics).
  { pose proof (F2_loop_scan metrics [] Hwf) as Hl. simpl in Hl.
    rewrite Hl. now destruct (F2_scan metrics). }
  split; [exact E|]. split.
  - rewrite metrics_to_table_state, E. reflexivity.
  - intros err Herr. unfold metrics_to_table. rewrite E.
    destruct (F2_scan metrics) as [m' r]. simpl in *. now subst r.
Qed.

Lemma metrics_to_table_entry_by_entry_witness :
  metrics_to_table
    [("experiments/a", [("precision", 8 # 10); ("recall", 5 # 10)]);
     ("experiments/b", [("precision", 8 # 10)]);
     ("experiments/c", [("precision", 8 # 10); ("recall", 5 # 10)])]
  = (fst (F2_scan
            [("experiments/a", [("precision", 8 # 10); ("recall", 5 # 10)]);
             ("experiments/b", [("precision", 8 # 10)]);
             ("experiments/c", [("precision", 8 # 10); ("recall", 5 # 10)])]),
     inl (KeyError "recall")).
Proof.
  apply (metrics_to_table_entry_by_entry
           [("experiments/a", [("precision", 8 # 10); ("recall", 5 # 10)]);
            ("experiments/b", [("precision", 8 # 10)]);
            ("experiments/c", [("precision", 8 # 10); ("recall", 5 # 10)])]).
  - unfold Dict.wf. simpl.
    repeat constructor; simpl; intros H;
      repeat (destruct H as [H|H]; [discriminate H|]); exact H.
  - reflexivity.
Defined.

End LoopByEntry.

Section TableFacts.

Import SynthesizeResults.
Open Scope Q_scope.
Open Scope list_scope.

Lemma F2_step_exn (metrics : metrics_t) (k : string) (err : exn) :
  F2_step metrics k = inl err ->
  (exists key, err = KeyError key) \/ err = ZeroDivisionError.
Proof.
  unfold F2_step.
  destruct (Dict.get metrics k) as [e0|e] eqn:Eg; cbn [bind].
  - intros E. injection E as <-. left. eexists.
    exact (get_not_other_exn _ _ _ Eg).
  - destruct (Dict.get e "precision") as [e0|p] eqn:Ep; cbn [bind].
    + intros E. injection E as <-. left. eexists.
      exact (get_not_other_exn _ _ _ Ep).
    + destruct (Dict.get e "recall") as [e0|r] eqn:Er; cbn [bind].
      * intros E. injection E as <-. left. eexists.
        exact (get_not_other_exn _ _ _ Er).
      * unfold truediv. destruct (Qeq_bool (4 * p + r) 0); cbn [bind raise].
        -- intros E. injection E as <-. now right.
        -- discriminate.
Qed.

Lemma F2_step_keys (metrics metrics' : metrics_t) (k : string) :
  F2_step metrics k = inr metrics' -> Dict.keys metrics' = Dict.keys metrics.
Proof.
  unfold F2_step.
  destruct (Dict.get metrics k) as [e0|e] eqn:Eg; cbn [bind]; [discriminate|].
  destruct (Dict.get e "precision") as [e0|p]; cbn [bind]; [discriminate|].
  destruct (Dict.get e "recall") as [e0|r]; cbn [bind]; [discriminate|].
  destruct (truediv (5 * p * r) (4 * p + r)) as [e0|f]; cbn [bind ret];
    [discriminate|].
  intros E. injection E as <-. exact (keys_set_present _ _ _ _ Eg).
Qed.

(** The loop keeps the keys and raises nothing but [KeyError] and
    [ZeroDivisionError]. *)
Lemma F2_loop_outcome (ks : list string) :
  forall metrics : metrics_t,
    Dict.keys (fst (F2_loop ks metrics)) = Dict.keys metrics
    /\ forall err,
        snd (F2_loop ks metrics) = inl err ->
        (exists key, err = KeyError key) \/ err = ZeroDivisionError.
Proof.
  induction ks as [|k ks IH]; intros metrics; simpl.
  - split; [reflexivity | discriminate].
  - destruct (F2_step metrics k) as [e|metrics'] eqn:Es; simpl.
    + split; [reflexivity|]. intros err E. injection E as <-.
      exact (F2_step_exn _ _ _ Es).
    + destruct (IH metrics') as [Hk He]. split; [|exact He].
      rewrite Hk. exact (F2_step_keys _ _ _ Es).
Qed.

Lemma row_values_spec (values : entry) (hs : list string) :
  match row_values values hs with
  | inl err => exists key, err = KeyError key
  | inr vs => Forall2 (fun h v => Dict.get values h = ret v) hs vs
  end.
Proof.
  induction hs as [|h hs IH]; simpl.
  - constructor.
  - destruct (Dict.get values h) as [e|v] eqn:Ev; cbn [bind].
    + eexists. exact (get_not_other_exn _ _ _ Ev).
    + destruct (row_values values hs) as [e|vs]; cbn [bind ret].
      * exact IH.
      * now constructor.
Qed.

Lemma table_rows_spec (items : list (string * entry)) (hs : list string) :
  match table_rows items hs with
  | inl err => exists key, err = KeyError key
  | inr rows =>
      Forall2
        (fun item row =>
           fst row = fst item
           /\ Forall2 (fun h v => Dict.get (snd item) h = ret v) hs (snd row))
        items rows
  end.
Proof.
  induction items as [|[subdir values] items IH]; simpl.
  - constructor.
  - pose proof (row_values_spec values hs) as Hr.
    destruct (row_values values hs) as [e|r]; cbn [bind]; [exact Hr|].
    destruct (table_rows items hs) as [e|rs]; cbn [bind ret]; [exact IH|].
    constructor; [now split | exact IH].
Qed.

(** [metrics_to_table] raises [IndexError] exactly on the empty
    dictionary: with no experiment there is no first entry to take the
    headers from. *)
Theorem metrics_to_table_IndexError_iff_empty (metrics : metrics_t) :
  snd (metrics_to_table metrics) = inl IndexError <-> metrics = [].
Proof.
  split.
  - destruct metrics as [|[k0 e0] rest]; [reflexivity|].
    intros E. exfalso. unfold metrics_to_table in E.
    destruct (F2_loop_outcome (Dict.keys ((k0, e0) :: rest))
                ((k0, e0) :: rest)) as [Hk He].
    destruct (F2_loop (Dict.keys ((k0, e0) :: rest)) ((k0, e0) :: rest))
      as [cur [err|u]]; simpl in *.
    + destruct (He err eq_refl) as [[key ->]| ->]; discriminate E.
    + rewrite Hk in E. cbn [bind ret] in E.
      destruct (Dict.get cur k0) as [err|first] eqn:Eg; cbn [bind] in E.
      * rewrite (get_not_other_exn _ _ _ Eg) in E. discriminate E.
      * pose proof (table_rows_spec cur (Dict.keys first)) as Ht.
        destruct (table_rows cur (Dict.keys first)) as [err|rows];
          cbn [bind ret] in E; [|discriminate E].
        destruct Ht as [key ->]. discriminate E.
  - intros ->. reflexivity.
Qed.

Lemma keys_set_mono {V : Type} (d : Dict.t V) (k k' : string) (v : V) :
  In k (Dict.keys d) -> In k (Dict.keys (Dict.set d k' v)).
Proof.
  induction d as [|[k1 v1] d IH]; simpl; [tauto|].
  destruct (String.eqb_spec k' k1) as [->|_]; simpl; tauto.
Qed.

Lemma keys_set_new {V : Type} (d : Dict.t V) (k : string) (v : V) :
  In k (Dict.keys (Dict.set d k v)).
Proof.
  induction d as [|[k1 v1] d IH]; simpl; [now left|].
  destruct (String.eqb_spec k k1) as [->|_]; simpl; tauto.
Qed.

Lemma F2_entry_keys (e e' : entry) :
  F2_entry e = inr e' ->
  In "precision" (Dict.keys e') /\ In "recall" (Dict.keys e')
  /\ In "F2" (Dict.keys e').
Proof.
  unfold F2_entry.
  destruct (Dict.get e "precision") as [e0|p] eqn:Ep; cbn [bind];
    [discriminate|].
  destruct (Dict.get e "recall") as [e0|r] eqn:Er; cbn [bind];
    [discriminate|].
  destruct (truediv (5 * p * r) (4 * p + r)) as [e0|f]; cbn [bind ret];
    [discriminate|].
  intros E. injection E as <-. repeat split.
  - apply keys_set_mono. exact (get_in_keys _ _ _ Ep).
  - apply keys_set_mono. exact (get_in_keys _ _ _ Er).
  - apply keys_set_new.
Qed.

(** When [metrics_to_table] returns, on a dictionary: the table has the
    [pipe] format; its headers are the keys of the first experiment's
    entry and hold [precision], [recall] and [F2]; there is one row per
    experiment, in the order of the dictionary, led by the experiment's
    directory; and each row holds, header by header, the values of that
    experiment's entry. *)
Theorem metrics_to_table_rows (metrics m' : metrics_t) (T : table_t) :
  Dict.wf metrics ->
  metrics_to_table metrics = (m', inr T) ->
  tablefmt T = "pipe"%string
  /\ (exists k0 first rest,
         m' = (k0, first) :: rest /\ headers T = Dict.keys first)
  /\ In "precision"%string (headers T)
  /\ In "recall"%string (headers T)
  /\ In "F2"%string (headers T)
  /\ map fst (rows T) = Dict.keys metrics
  /\ Forall2
       (fun item row =>
          fst row = fst item
          /\ Forall2 (fun h v => Dict.get (snd item) h = ret v) (headers T)
               (snd row))
       m' (rows T).
Proof.
  intros Hwf. unfold metrics_to_table.
  pose proof (F2_loop_scan metrics [] Hwf) as Hl. simpl in Hl. rewrite Hl.
  pose proof (F2_scan_keys metrics) as Hkeys.
  destruct metrics as [|[k0 e0] rest].
  - simpl. discriminate.
  - cbn [F2_scan] in Hkeys |- *.
    destruct (F2_entry e0) as [err|e0'] eqn:E0; cbn [fst snd];
      [discriminate|].
    destruct (F2_scan rest) as [rest' [err|u]]; cbn [fst snd] in *;
      [discriminate|].
    change (Dict.keys ((k0, e0') :: rest')) with (k0 :: Dict.keys rest')
      in *.
    cbn [bind ret].
    change (Dict.get ((k0, e0') :: rest') k0)
      with (if String.eqb k0 k0 then ret e0' else Dict.get rest' k0).
    rewrite String.eqb_refl. cbn [bind ret].
    pose proof (table_rows_spec ((k0, e0') :: rest') (Dict.keys e0')) as Ht.
    destruct (table_rows ((k0, e0') :: rest') (Dict.keys e0'))
      as [err|rows] eqn:Er; cbn [bind ret]; [discriminate|].
    intros E. injection E as <- <-. simpl.
    destruct (F2_entry_keys e0 e0' E0) as (Hp & Hr & HF).
    split; [reflexivity|].
    split; [exists k0, e0', rest'; now split|].
    split; [exact Hp|]. split; [exact Hr|]. split; [exact HF|].
    split; [|exact Ht].
    transitivity (Dict.keys ((k0, e0') :: rest')); [|exact Hkeys].
    clear -Ht.
    induction Ht as [|item row items rows' [Hfst _] _ IH]; simpl.
    + reflexivity.
    + now rewrite Hfst, IH.
Qed.

Lemma metrics_to_table_rows_witness :
  exists T,
    metrics_to_table
      [("experiments/a", [("precision", 8 # 10); ("recall", 5 # 10)]);
       ("experiments/b", [("precision", 1); ("recall", 1)])]
    = (fst (F2_scan
              [("experiments/a", [("precision", 8 # 10); ("recall", 5 # 10)]);
               ("experiments/b", [("precision", 1); ("recall", 1)])]),
       inr T)
    /\ map fst (rows T) = ["experiments/a"; "experiments/b"]%string.
Proof.
  eexists. split; [reflexivity|].
  eapply (metrics_to_table_rows
            [("experiments/a", [("precision", 8 # 10); ("recall", 5 # 10)]);
             ("experiments/b", [("precision", 1); ("recall", 1)])]).
  - unfold Dict.wf. simpl.
    repeat constructor; simpl; intros H;
      repeat (destruct H as [H|H]; [discriminate H|]); exact H.
  - reflexivity.
Defined.

End TableFacts.

Section Aggregate.

Import SynthesizeResults.
Open Scope list_scope.

Lemma prefix_refl (s : string) : String.prefix s s = true.
Proof.
  induction s as [|a s IH]; simpl; [reflexivity|].
  destruct (ascii_dec a a); [exact IH | contradiction].
Qed.

Lemma prefix_app (s t : string) : String.prefix s (s ++ t)%string = true.
Proof.
  induction s as [|a s IH]; simpl.
  - now destruct t.
  - destruct (ascii_dec a a); [exact IH | contradiction].
Qed.

Lemma prefix_trans (s : string) :
  forall t u : string,
    String.prefix s t = true -> String.prefix t u = true ->
    String.prefix s u = true.
Proof.
  induction s as [|a s IH]; intros t u Hst Htu.
  - now destruct u.
  - destruct t as [|b t]; [discriminate|]. simpl in Hst.
    destruct (ascii_dec a b) as [->|]; [|discriminate].
    destruct u as [|c u]; [discriminate|]. simpl in Htu |- *.
    destruct (ascii_dec b c) as [->|]; [|discriminate].
    now apply IH with (t := t).
Qed.

Lemma prefix_length (s : string) :
  forall t : string,
    String.prefix s t = true -> (String.length s <= String.length t)%nat.
Proof.
  induction s as [|a s IH]; intros t Hst; simpl.
  - lia.
  - destruct t as [|b t]; [discriminate|]. simpl in Hst |- *.
    destruct (ascii_dec a b); [|discriminate].
    apply IH in Hst. lia.
Qed.

Lemma length_append (s t : string) :
  String.length (s ++ t)%string = (String.length s + String.length t)%nat.
Proof.
  induction s as [|a s IH]; simpl; [reflexivity | now rewrite IH].
Qed.

(** For a name as [os.listdir] gives it, the joined path extends the
    parent path and is longer. *)
Lemma os_path_join_extends (p name : string) :
  name_ok name = true ->
  String.prefix p (os_path_join p name) = true
  /\ (String.length p < String.length (os_path_join p name))%nat.
Proof.
  unfold name_ok, os_path_join. intros H.
  apply andb_true_iff in H. destruct H as [Hne Habs].
  apply negb_true_iff in Hne, Habs. rewrite Habs.
  assert (0 < String.length name)%nat.
  { destruct name; [discriminate | simpl; lia]. }
  destruct (String.eqb p "" || ends_with_slash p).
  - split; [apply prefix_app|]. rewrite length_append. lia.
  - split; [apply prefix_app|]. rewrite !length_append. lia.
Qed.

Lemma aggregate_node_Dir (p : string) (children : list (string * node))
    (m : metrics_t) :
  aggregate_node p (Dir children) m
  = match find_child "metrics_eval_best_weights.json" children with
    | Some (File (Some j)) =>
        aggregate_children (fun p c m => aggregate_node p c m) p children
          (Dict.set m p j)
    | Some (File None) =>
        (m, raise (ValueError "metrics_eval_best_weights.json"))
    | _ =>
        aggregate_children (fun p c m => aggregate_node p c m) p children m
    end.
Proof.
  cbn [aggregate_node].
  destruct (find_child "metrics_eval_best_weights.json" children)
    as [[[j|]|ch]|]; reflexivity.
Qed.

(** The loop over the entries of a directory changes no key that none of
    the visited sub-directories may change. *)
Lemma aggregate_children_keep (p k : string) (l : list (string * node)) :
  Forall
    (fun c =>
       forall p' m',
         names_ok (snd c) = true ->
         String.prefix p' k = false ->
         Dict.get (fst (aggregate_node p' (snd c) m')) k = Dict.get m' k) l ->
  forallb (fun c => name_ok (fst c) && names_ok (snd c)) l = true ->
  (forall name, name_ok name = true ->
                String.prefix (os_path_join p name) k = false) ->
  forall m,
    Dict.get
      (fst (aggregate_children (fun p c m => aggregate_node p c m) p l m)) k
    = Dict.get m k.
Proof.
  intros HF Hok Hk. induction HF as [|[name child] l Hc HF IH]; intros m.
  - reflexivity.
  - cbn [forallb fst snd] in Hok.
    apply andb_true_iff in Hok. destruct Hok as [Hc_ok Hl_ok].
    apply andb_true_iff in Hc_ok. destruct Hc_ok as [Hname Hchild].
    cbn [aggregate_children]. destruct child as [content|children].
    + now apply IH.
    + cbn [snd] in Hc.
      specialize (Hc (os_path_join p name) m Hchild (Hk name Hname)).
      destruct (aggregate_node (os_path_join p name) (Dir children) m)
        as [m1 [e|u]]; cbn [fst] in *.
      * exact Hc.
      * rewrite IH by exact Hl_ok. exact Hc.
Qed.

(** [aggregate_metrics] changes no key that does not begin with the
    path it is called on. *)
Lemma aggregate_node_keep (n : node) :
  forall (p : string) (m : metrics_t),
    names_ok n = true ->
    forall k,
      String.prefix p k = false ->
      Dict.get (fst (aggregate_node p n m)) k = Dict.get m k.
Proof.
  induction n as [content|children IH] using node_ind';
    intros p m Hok k Hk.
  - reflexivity.
  - rewrite aggregate_node_Dir.
    assert (Hloop : forall m0,
               Dict.get
                 (fst (aggregate_children (fun p c m => aggregate_node p c m)
                         p children m0)) k
               = Dict.get m0 k).
    { apply aggregate_children_keep.
      - eapply Forall_impl; [|exact IH]. intros c Hc p' m' Hc_ok Hp'.
        now apply Hc.
      - exact Hok.
      - intros name Hname.
        destruct (String.prefix (os_path_join p name) k) eqn:E;
          [|reflexivity].
        rewrite (prefix_trans p (os_path_join p name) k) in Hk;
          [discriminate | apply os_path_join_extends, Hname | exact E]. }
    destruct (find_child "metrics_eval_best_weights.json" children)
      as [[[j|]|ch]|]; try apply Hloop; try reflexivity.
    rewrite Hloop. apply get_set_other.
    intros ->. rewrite prefix_refl in Hk. discriminate.
Qed.

(** [aggregate_metrics] only writes under its own path: an entry whose
    key does not begin with [parent_dir] is after the walk what it was
    before, whether the walk ends or raises. *)
Theorem aggregate_metrics_writes_under_parent
    (parent_dir : string) (children : list (string * node))
    (metrics : metrics_t) (k : string) :
  names_ok (Dir children) = true ->
  String.prefix parent_dir k = false ->
  Dict.get (fst (aggregate_metrics parent_dir children metrics)) k
  = Dict.get metrics k.
Proof.
  intros Hok Hk. unfold aggregate_metrics. now apply aggregate_node_keep.
Qed.

Lemma aggregate_metrics_writes_under_parent_witness :
  Dict.get
    (fst (aggregate_metrics "experiments/base_model"
            [("lr_0.01",
              Dir [("metrics_eval_best_weights.json",
                    File (Some [("precision", 1%Q); ("recall", 1%Q)]))])]
            [("experiments/other", [("precision", 0%Q)])]))
    "experiments/other"
  = Dict.get [("experiments/other", [("precision", 0%Q)])]
      "experiments/other".
Proof.
  apply (aggregate_metrics_writes_under_parent "experiments/base_model"
           [("lr_0.01",
             Dir [("metrics_eval_best_weights.json",
                   File (Some [("precision", 1%Q); ("recall", 1%Q)]))])]
           [("experiments/other", [("precision", 0%Q)])]
           "experiments/other");
    reflexivity.
Defined.

(** The metric file of the directory the walk starts in is recorded under
    [parent_dir] itself, and no sub-directory overwrites it. *)
Theorem aggregate_metrics_records_parent
    (parent_dir : string) (children : list (string * node))
    (metrics : metrics_t) (j : entry) :
  names_ok (Dir children) = true ->
  find_child "metrics_eval_best_weights.json" children
  = Some (File (Some j)) ->
  Dict.get (fst (aggregate_metrics parent_dir children metrics)) parent_dir
  = ret j.
Proof.
  intros Hok Hfind. unfold aggregate_metrics.
  rewrite aggregate_node_Dir, Hfind.
  rewrite aggregate_children_keep.
  - apply get_set_same.
  - apply Forall_forall. intros c _ p' m' Hc Hp'.
    now apply aggregate_node_keep.
  - exact Hok.
  - intros name Hname.
    destruct (String.prefix (os_path_join parent_dir name) parent_dir) eqn:E;
      [|reflexivity].
    apply prefix_length in E.
    destruct (os_path_join_extends parent_dir name Hname) as [_ Hlen]. lia.
Qed.

Lemma aggregate_metrics_records_parent_witness :
  Dict.get
    (fst (aggregate_metrics "experiments/base_model"
            [("metrics_eval_best_weights.json",
              File (Some [("precision", 1%Q); ("recall", 1%Q)]));
             ("lr_0.01",
              Dir [("metrics_eval_best_weights.json",
                    File (Some [("precision", 0%Q); ("recall", 1%Q)]))])]
            []))
    "experiments/base_model"
  = ret [("precision", 1%Q); ("recall", 1%Q)].
Proof.
  apply (aggregate_metrics_records_parent "experiments/base_model"
           [("metrics_eval_best_weights.json",
             File (Some [("precision", 1%Q); ("recall", 1%Q)]));
            ("lr_0.01",
             Dir [("metrics_eval_best_weights.json",
                   File (Some [("precision", 0%Q); ("recall", 1%Q)]))])]
           []);
    reflexivity.
Defined.

Lemma aggregate_children_nothing (p : string) (l : list (string * node)) :
  Forall
    (fun c =>
       forall p' m',
         has_results (snd c) = false ->
         aggregate_node p' (snd c) m' = (m', ret tt)) l ->
  existsb (fun c => has_results (snd c)) l = false ->
  forall m,
    aggregate_children (fun p c m => aggregate_node p c m) p l m
    = (m, ret tt).
Proof.
  intros HF Hno. induction HF as [|[name child] l Hc HF IH]; intros m.
  - reflexivity.
  - cbn [existsb snd] in Hno. apply orb_false_iff in Hno.
    destruct Hno as [Hchild Hl]. cbn [aggregate_children].
    destruct child as [content|children].
    + now apply IH.
    + cbn [snd] in Hc. rewrite (Hc _ m Hchild). now apply IH.
Qed.

Lemma aggregate_node_nothing (n : node) :
  forall (p : string) (m : metrics_t),
    has_results n = false -> aggregate_node p n m = (m, ret tt).
Proof.
  induction n as [content|children IH] using node_ind'; intros p m Hno.
  - reflexivity.
  - rewrite aggregate_node_Dir. cbn [has_results] in Hno.
    apply orb_false_iff in Hno. destruct Hno as [Hfile Hsub].
    destruct (find_child "metrics_eval_best_weights.json" children)
      as [[content|ch]|]; try discriminate Hfile;
      now apply aggregate_children_nothing.
Qed.

(** Where no directory of the tree holds a metric file, the walk leaves
    [metrics] as it is, and the script, which starts from the empty
    dictionary, stops with [IndexError] instead of writing a table. *)
Theorem main_without_results
    (parent_dir : string) (children : list (string * node))
    (metrics : metrics_t) :
  has_results (Dir children) = false ->
  aggregate_metrics parent_dir children metrics = (metrics, ret tt)
  /\ main parent_dir children = inl IndexError.
Proof.
  intros Hno.
  assert (E : forall m, aggregate_metrics parent_dir children m = (m, ret tt))
    by (intros m; unfold aggregate_metrics; now apply aggregate_node_nothing).
  split; [apply E|]. unfold main. rewrite E. reflexivity.
Qed.

Lemma main_without_results_witness :
  main "experiments/base_model"
    [("train.log", File None);
     ("lr_0.01", Dir [("best_weights", Dir []); ("train.log", File None)])]
  = inl IndexError.
Proof.
  apply (main_without_results "experiments/base_model"
           [("train.log", File None);
            ("lr_0.01",
             Dir [("best_weights", Dir []); ("train.log", File None)])]
           []).
  reflexivity.
Defined.

End Aggregate.

(* ====================================================================== *)
(** * Further properties of the training start-up *)

Section LabelOrder.

Import Train.
Open Scope list_scope.

Lemma filter_filter {A : Type} (f g : A -> bool) (l : list A) :
  filter f (filter g l) = filter (fun x => g x && f x) l.
Proof.
  induction l as [|a l IH]; simpl; [reflexivity|].
  destruct (g a); simpl; [destruct (f a)|]; now rewrite IH.
Qed.

Lemma mem_app (x : string) (l1 l2 : list string) :
  mem x (l1 ++ l2) = mem x l1 || mem x l2.
Proof.
  unfold mem. apply existsb_app.
Qed.

(** The inner loop appends to [acc], in the order of their first
    occurrence, the labels that [acc] does not hold. *)
Lemma push_new_order (labels : list string) :
  forall acc : list string,
    fold_left
      (fun acc label => if mem label acc then acc else acc ++ [label])
      labels acc
    = acc ++ filter (fun y => negb (mem y acc)) (first_occurrences labels).
Proof.
  induction labels as [|label labels IH]; intros acc; simpl.
  - now rewrite app_nil_r.
  - destruct (mem label acc) eqn:Em; simpl.
    + rewrite IH, filter_filter. f_equal. apply filter_ext_in.
      intros y _. destruct (String.eqb_spec y label) as [->|_]; simpl.
      * now rewrite Em.
      * reflexivity.
    + rewrite IH, <- app_assoc. simpl. do 2 f_equal.
      rewrite filter_filter. apply filter_ext.
      intros y. rewrite mem_app. unfold mem at 2. simpl.
      rewrite orb_false_r, negb_orb. apply andb_comm.
Qed.

Lemma fold_add_labels_flat (tags : list string) :
  forall acc : list string,
    fold_left add_labels tags acc
    = fold_left
        (fun acc label => if mem label acc then acc else acc ++ [label])
        (flat_map (split " "%char) tags) acc.
Proof.
  induction tags as [|t tags IH]; intros acc; simpl.
  - reflexivity.
  - rewrite fold_left_app. apply IH.
Qed.

(** The label list holds the labels in the order in which they first
    occur, reading the tag strings from the first row to the last and
    each string from left to right. *)
Theorem unique_labels_first_occurrence_order (tags : list string) :
  unique_labels tags
  = first_occurrences (flat_map (split " "%char) tags).
Proof.
  unfold unique_labels. rewrite fold_add_labels_flat, push_new_order.
  simpl. induction (first_occurrences _) as [|a l IH]; simpl;
    [reflexivity | now rewrite IH].
Qed.

(** The label list has no repetition and holds exactly the labels that
    occur in some tag string of the split. *)
Theorem unique_labels_distinct_and_complete (tags : list string) :
  NoDup (unique_labels tags)
  /\ forall label,
      In label (unique_labels tags)
      <-> exists tag_str,
          In tag_str tags /\ In label (split " "%char tag_str).
Proof.
  exact (unique_labels_spec tags).
Qed.

(** What follows a separator is split as it would be alone. *)
Lemma split_after_separator (sep : ascii) (s2 x : string) :
  In x (split sep s2) ->
  forall s1 : string, In x (tl (split sep (s1 ++ String sep s2)%string)).
Proof.
  intros Hx. induction s1 as [|c s1 IH]; simpl.
  - rewrite Ascii.eqb_refl. exact Hx.
  - destruct (Ascii.eqb c sep).
    + simpl. destruct (split sep (s1 ++ String sep s2)%string); simpl in *;
        [contradiction | now right].
    + destruct (split sep (s1 ++ String sep s2)%string); simpl in *;
        [contradiction | exact IH].
Qed.

(** The tag strings are split at every single space, so an empty tag
    string, a leading or a trailing space, and two spaces in a row each
    put the empty string among the labels. *)
Theorem unique_labels_empty_label (tags : list string) (tag_str : string) :
  In tag_str tags ->
  tag_str = ""%string
  \/ (exists s, tag_str = (" " ++ s)%string)
  \/ (exists s, tag_str = (s ++ " ")%string)
  \/ (exists s1 s2, tag_str = (s1 ++ "  " ++ s2)%string) ->
  In ""%string (unique_labels tags).
Proof.
  intros Hin Hcase. apply unique_labels_spec. exists tag_str.
  split; [exact Hin|].
  destruct Hcase as [->|[[s ->]|[[s ->]|(s1 & s2 & ->)]]].
  - now left.
  - now left.
  - assert (H : In ""%string (tl (split " "%char (s ++ " ")%string)))
      by (apply split_after_separator; now left).
    destruct (split " "%char (s ++ " ")%string); simpl in H;
      [contradiction | now right].
  - assert (H : In ""%string
                  (tl (split " "%char (s1 ++ "  " ++ s2)%string)))
      by (apply (split_after_separator " "%char (String " " s2)); now left).
    destruct (split " "%char (s1 ++ "  " ++ s2)%string); simpl in H;
      [contradiction | now right].
Qed.

Lemma unique_labels_empty_label_witness :
  In ""%string (unique_labels ["clear primary"; "haze  water"]%string).
Proof.
  apply (unique_labels_empty_label ["clear primary"; "haze  water"]%string
           "haze  water"%string).
  - right. left. reflexivity.
  - right. right. right. exists "haze"%string, "water"%string. reflexivity.
Defined.

(** Start-up gets past its three guards exactly when the configuration
    file exists, the model directory holds no best weights or a
    checkpoint to restore from is given, and both splits have the same
    number of distinct labels; it then holds the two label lists. *)
Theorem main_startup_passes_iff (env : Env) (r : list string * list string) :
  main_startup env = inr r
  <-> json_path_isfile env = true
      /\ (model_dir_has_best_weights env = true -> restore_from env <> None)
      /\ List.length (unique_labels (train_tags env))
         = List.length (unique_labels (eval_tags env))
      /\ r = (unique_labels (train_tags env), unique_labels (eval_tags env)).
Proof.
  unfold main_startup.
  destruct (json_path_isfile env); simpl.
  - destruct (model_dir_has_best_weights env), (restore_from env) as [ckpt|];
      simpl.
    + destruct (Nat.eqb_spec (List.length (unique_labels (train_tags env)))
                  (List.length (unique_labels (eval_tags env)))) as [E|N].
      * split.
        -- intros H. injection H as <-. repeat split; try assumption.
           discriminate.
        -- intros (_ & _ & _ & ->). reflexivity.
      * split; [discriminate | intros (_ & _ & E & _); contradiction].
    + split; [discriminate|]. intros (_ & H & _). now contradiction H.
    + destruct (Nat.eqb_spec (List.length (unique_labels (train_tags env)))
                  (List.length (unique_labels (eval_tags env)))) as [E|N].
      * split.
        -- intros H. injection H as <-. repeat split; try assumption.
           discriminate.
        -- intros (_ & _ & _ & ->). reflexivity.
      * split; [discriminate | intros (_ & _ & E & _); contradiction].
    + destruct (Nat.eqb_spec (List.length (unique_labels (train_tags env)))
                  (List.length (unique_labels (eval_tags env)))) as [E|N].
      * split.
        -- intros H. injection H as <-. repeat split; try assumption.
           discriminate.
        -- intros (_ & _ & _ & ->). reflexivity.
      * split; [discriminate | intros (_ & _ & E & _); contradiction].
  - split; [discriminate | intros (H & _); discriminate H].
Qed.

End LabelOrder.

Section StageFilters.

Import Tf Resnet2.
Open Scope list_scope.

Lemma block_layers_channels (self : Model) (training : bool) (b : dim) :
  fits (bottleneck self) (block_fn self) ->
  Forall (fun s => 1 <= s) (block_strides self) ->
  forall (sizes : list Z) (i : nat) (x : tensor) (h w : Z) (c : dim),
    sizes <> [] ->
    get_shape x = Some [b; Some h; Some w; c] ->
    1 <= h -> 1 <= w ->
    (i + List.length sizes <= List.length (block_strides self))%nat ->
    exists t h' w',
      block_layers self training i sizes x = inr t
      /\ get_shape t
         = Some [b; Some h'; Some w';
                 Some (let filters :=
                         num_filters self
                         * 2 ^ Z.of_nat (i + List.length sizes - 1) in
                       if bottleneck self then 4 * filters else filters)].
Proof.
  intros Hfit Hstr. induction sizes as [|n sizes IH];
    intros i x h w c Hne Hx Hh Hw Hlen; [contradiction|].
  cbn [block_layers].
  destruct (nth_error (block_strides self) i) as [s|] eqn:Es;
    [|apply nth_error_None in Es; simpl in Hlen; lia].
  assert (Hs : 1 <= s).
  { rewrite Forall_forall in Hstr. apply Hstr. eapply nth_error_In, Es. }
  pose proof (ceil_div_bounds h s Hh Hs).
  pose proof (ceil_div_bounds w s Hw Hs).
  pose proof (stage_shape x b c h w (num_filters self * 2 ^ Z.of_nat i) n s
                (bottleneck self) (block_fn self) training
                ("block_layer" ++ str_of_nat (i + 1))%string
                (weight_decay self) Hfit Hx Hh Hw Hs) as Hstage.
  destruct sizes as [|n' sizes].
  - eexists _, _, _. split; [reflexivity|]. rewrite Hstage.
    cbv zeta. simpl List.length. now replace (i + 1 - 1)%nat with i by lia.
  - destruct (IH (S i) _ _ _ _ ltac:(discriminate) Hstage ltac:(lia)
                ltac:(lia) ltac:(simpl in *; lia))
      as (t & h' & w' & Ht & Hsh).
    exists t, h', w'. split; [exact Ht|]. rewrite Hsh. cbv zeta.
    simpl List.length.
    now replace (S i + S (List.length sizes) - 1)%nat
      with (i + S (S (List.length sizes)) - 1)%nat by lia.
Qed.

(** The filter count doubles from stage to stage: behind [n >= 1] stages
    the features have [num_filters * 2^(n-1)] channels when the blocks are
    basic and four times as many when they are bottleneck blocks,
    whatever the numbers of blocks of the stages. *)
Theorem stages_double_filters
    (self : Model) (training : bool) (x : tensor) (b c : dim) (H W : Z) :
  fits (bottleneck self) (block_fn self) ->
  Forall (fun s => 1 <= s) (block_strides self) ->
  block_sizes self <> [] ->
  (List.length (block_sizes self) <= List.length (block_strides self))%nat ->
  get_shape x = Some [b; Some H; Some W; c] ->
  1 <= H -> 1 <= W ->
  exists t h' w',
    block_layers self training 0 (block_sizes self) x = inr t
    /\ get_shape t
       = Some [b; Some h'; Some w';
               Some (let filters :=
                       num_filters self
                       * 2 ^ Z.of_nat (List.length (block_sizes self) - 1) in
                     if bottleneck self then 4 * filters else filters)].
Proof.
  intros Hfit Hstr Hne Hlen Hx HH HW.
  exact (block_layers_channels self training b Hfit Hstr (block_sizes self)
           0%nat x H W c Hne Hx HH HW Hlen).
Qed.

Lemma stages_double_filters_witness :
  exists t h' w',
    block_layers
      (mkModel 2 true _bottleneck_block_v2 17 8 3 1 None None 4 1 [3; 4; 6]
         [1; 2; 2] 17 (1 # 1000))
      true 0 [3; 4; 6] (placeholder [None; Some 32; Some 32; Some 8])
    = inr t
    /\ get_shape t = Some [None; Some h'; Some w'; Some (4 * (8 * 2 ^ 2))].
Proof.
  apply (stages_double_filters
           (mkModel 2 true _bottleneck_block_v2 17 8 3 1 None None 4 1
              [3; 4; 6] [1; 2; 2] 17 (1 # 1000))
           true (placeholder [None; Some 32; Some 32; Some 8]) None (Some 8)
           32 32).
  - right. reflexivity.
  - simpl. repeat constructor; lia.
  - discriminate.
  - simpl. lia.
  - reflexivity.
  - lia.
  - lia.
Defined.

End StageFilters.

(* ====================================================================== *)
(** * The F2 values, in binary64 *)

Section MetricsFloat.

Import SynthesizeResultsFloat.
Open Scope list_scope.
#[local] Set Warnings "-inexact-float".

Lemma has_scores_float_functional (metrics : metrics_t) (k : string)
    (p r p' r' : float) :
  has_scores metrics k p r -> has_scores metrics k p' r' -> p = p' /\ r = r'.
Proof.
  intros (e & He & Hp & Hr) (e' & He' & Hp' & Hr'). unfold ret in *.
  assert (e = e') as <- by congruence. split; congruence.
Qed.

Lemma F2_step_float_eq (cur : metrics_t) (k : string) (e : entry)
    (p r : float) :
  Dict.get cur k = ret e ->
  Dict.get e "precision" = ret p ->
  Dict.get e "recall" = ret r ->
  F2_step cur k
  = if PrimFloat.eqb (4 * p + r)%float 0%float then inl ZeroDivisionError
    else inr (Dict.set cur k (Dict.set e "F2" (F2_value p r))).
Proof.
  intros He Hp Hr. unfold F2_step. rewrite He. simpl.
  rewrite Hp. simpl. rewrite Hr. simpl. unfold truediv.
  destruct (PrimFloat.eqb (4 * p + r)%float 0%float); reflexivity.
Qed.

Lemma loop_inv_float_init (orig : metrics_t) : loop_inv orig orig [].
Proof.
  split; [reflexivity|].
  intros k p r (e & He & Hp & Hr). exists e. repeat split; try assumption.
  intros [].
Qed.

Lemma loop_inv_float_incl (orig cur : metrics_t) (d1 d2 : list string) :
  incl d1 d2 -> loop_inv orig cur d2 -> loop_inv orig cur d1.
Proof.
  intros Hincl [Hk H]. split; [exact Hk|].
  intros k p r Hs. destruct (H k p r Hs) as (e' & He' & Hp & Hr & HF).
  exists e'. repeat split; try assumption. intros Hin. apply HF, Hincl, Hin.
Qed.

Lemma loop_inv_float_step (orig cur : metrics_t) (done : list string)
    (k : string) (e : entry) (p r : float) :
  loop_inv orig cur done ->
  has_scores orig k p r ->
  Dict.get cur k = ret e ->
  Dict.get e "precision" = ret p ->
  Dict.get e "recall" = ret r ->
  loop_inv orig (Dict.set cur k (Dict.set e "F2" (F2_value p r))) (k :: done).
Proof.
  intros [Hkeys Hinv] Hs He Hp Hr. split.
  - rewrite (keys_set_present cur k _ e He). exact Hkeys.
  - intros k2 p2 r2 Hs2.
    destruct (string_dec k2 k) as [->|Hne].
    + destruct (has_scores_float_functional _ _ _ _ _ _ Hs Hs2) as [<- <-].
      eexists. rewrite get_set_same. split; [reflexivity|].
      rewrite !get_set_other by discriminate.
      split; [exact Hp|]. split; [exact Hr|].
      intros _. apply get_set_same.
    + destruct (Hinv k2 p2 r2 Hs2) as (e2 & He2 & Hp2 & Hr2 & HF).
      exists e2. rewrite get_set_other by exact Hne.
      repeat split; try assumption.
      intros [Heq|Hin]; [congruence | now apply HF].
Qed.

(** The loop over keys whose entries hold a precision and a recall with a
    divisor that is not zero: it ends, and every key visited holds its
    F2. *)
Lemma F2_loop_float_sets (orig : metrics_t) (ks : list string) :
  forall (cur : metrics_t) (done : list string),
    loop_inv orig cur done ->
    (forall k, In k ks ->
               exists p r,
                 has_scores orig k p r
                 /\ PrimFloat.eqb (4 * p + r)%float 0%float = false) ->
    exists cur',
      F2_loop ks cur = (cur', inr tt) /\ loop_inv orig cur' (ks ++ done).
Proof.
  induction ks as [|k ks IH]; intros cur done Hinv Hall.
  - exists cur. split; [reflexivity | exact Hinv].
  - destruct (Hall k (or_introl eq_refl)) as (p & r & Hs & Hnz).
    destruct (proj2 Hinv k p r Hs) as (e & He & Hp & Hr & _).
    simpl. rewrite (F2_step_float_eq cur k e p r He Hp Hr), Hnz.
    pose proof (loop_inv_float_step orig cur done k e p r Hinv Hs He Hp Hr)
      as Hinv'.
    destruct (IH _ _ Hinv' (fun k' Hk' => Hall k' (or_intror Hk')))
      as (cur' & Hl & Hi).
    exists cur'. split; [exact Hl|].
    apply (loop_inv_float_incl orig cur' _ (ks ++ k :: done)); [|exact Hi].
    intros x Hx. simpl in Hx. apply in_or_app.
    destruct Hx as [<-|Hx]; [right; now left|].
    apply in_app_or in Hx. destruct Hx; [now left | right; now right].
Qed.

Lemma metrics_to_table_float_state (metrics : metrics_t) :
  fst (metrics_to_table metrics)
  = fst (F2_loop (Dict.keys metrics) metrics).
Proof.
  unfold metrics_to_table.
  destruct (F2_loop (Dict.keys metrics) metrics) as [cur [e|u]]; reflexivity.
Qed.

(** C7, as the code has it.  When no entry has a divisor [4*p + r] equal
    to zero, [metrics_to_table] leaves in every entry with precision [p]
    and recall [r] the binary64 value of [5*p*r / (4*p + r)] as F2, and
    keeps the keys; for [p = 0.8] and [r = 0.5] that value is the value
    of [2.0 / 3.7], the float 0.5405405405405405, between 0.5405 and
    0.5406, in every such entry. *)
Theorem metrics_to_table_sets_F2 (metrics : metrics_t) :
  (forall k, In k (Dict.keys metrics) ->
             exists p r,
               has_scores metrics k p r
               /\ PrimFloat.eqb (4 * p + r)%float 0%float = false) ->
  F2_set_everywhere metrics
  /\ Dict.keys (fst (metrics_to_table metrics)) = Dict.keys metrics
  /\ (forall k,
         has_scores metrics k 0.8%float 0.5%float ->
         exists e',
           Dict.get (fst (metrics_to_table metrics)) k = ret e'
           /\ Dict.get e' "F2" = ret (2.0 / 3.7)%float
           /\ Dict.get e' "F2" = ret 0.5405405405405405%float
           /\ PrimFloat.ltb 0.5405%float (2.0 / 3.7)%float = true
           /\ PrimFloat.ltb (2.0 / 3.7)%float 0.5406%float = true).
Proof.
  intros Hgood.
  assert (Hset : F2_set_everywhere metrics
                 /\ Dict.keys (fst (metrics_to_table metrics))
                    = Dict.keys metrics).
  { rewrite metrics_to_table_float_state.
    unfold F2_set_everywhere. setoid_rewrite metrics_to_table_float_state.
    destruct (F2_loop_float_sets metrics (Dict.keys metrics) metrics []
                (loop_inv_float_init metrics) Hgood)
      as (cur' & Hl & [Hkeys Hinv]).
    rewrite Hl. simpl. split; [|exact Hkeys].
    intros k p r Hs.
    destruct (Hinv k p r Hs) as (e' & He' & _ & _ & HF).
    exists e'. split; [exact He'|]. apply HF.
    apply in_or_app. left.
    destruct Hs as (e & He & _). exact (get_in_keys _ _ _ He). }
  destruct Hset as [HF Hkeys]. split; [exact HF|]. split; [exact Hkeys|].
  intros k Hs. destruct (HF k _ _ Hs) as (e' & He' & Hf2).
  exists e'. split; [exact He'|].
  split; [exact Hf2|]. split; [exact Hf2|]. split; reflexivity.
Qed.

Lemma metrics_to_table_sets_F2_witness :
  F2_set_everywhere
    [("experiments/a", [("precision", 0.8%float); ("recall", 0.5%float)]);
     ("experiments/b", [("precision", 0.8%float); ("recall", 0.5%float)])].
Proof.
  apply (metrics_to_table_sets_F2
           [("experiments/a",
             [("precision", 0.8%float); ("recall", 0.5%float)]);
            ("experiments/b",
             [("precision", 0.8%float); ("recall", 0.5%float)])]).
  intros k [<-|[<-|[]]]; exists 0.8%float, 0.5%float;
    (split; [eexists; repeat split; reflexivity | reflexivity]).
Defined.

(** C7 as it is written fails where a divisor is zero: on an entry with
    precision 0.0 and recall 0.0 the function raises and sets no F2. *)
Lemma metrics_to_table_F2_counterexample :
  has_scores
    [("experiments/a", [("precision", 0%float); ("recall", 0%float)])]
    "experiments/a" 0%float 0%float
  /\ snd (metrics_to_table
            [("experiments/a", [("precision", 0%float); ("recall", 0%float)])])
     = inl ZeroDivisionError
  /\ ~ F2_set_everywhere
         [("experiments/a", [("precision", 0%float); ("recall", 0%float)])].
Proof.
  assert (Hs : has_scores
                 [("experiments/a",
                   [("precision", 0%float); ("recall", 0%float)])]
                 "experiments/a" 0%float 0%float)
    by (eexists; repeat split; reflexivity).
  split; [exact Hs|]. split; [reflexivity|].
  intros H. destruct (H _ _ _ Hs) as (e' & He' & HF).
  vm_compute in He'. injection He' as <-. vm_compute in HF. discriminate HF.
Qed.

End MetricsFloat.
